(** * Qconfig resolution (torch/quantization/fx/qconfig_utils.py) and the
      DDP trainer's hook state (benchmarks/.../trainers/DdpTrainer.py)

    A shallow embedding of the Python code.  Python values that the code
    handles are given by small inductive types, exceptions by an error monad,
    dictionaries by insertion-ordered association lists with distinct keys
    (the iteration order of [dict] and [OrderedDict] is observable in the
    code: "first match wins", "first unrecognised key").  *)

From Stdlib Require Import ZArith Lia Ascii String DecimalString.
From Stdlib Require DecimalPos DecimalZ.
From stdpp Require Import base decidable option list strings gmap.
From Equations Require Import Equations.


(** ** Python values, exceptions and dictionaries *)

Module Py.

(** The exceptions this code can raise.  [ReError] is [re.error]; only
    [ValueError] carries its message, the one the validation builds. *)
Variant pyexn :=
  | KeyError
  | AttributeError
  | TypeError
  | ReError
  | ValueError (msg : string).

Variant result (A : Type) :=
  | Ok (a : A)
  | Raise (e : pyexn).
Global Arguments Ok {A} a.
Global Arguments Raise {A} e.

Global Instance pyexn_eq_dec : EqDecision pyexn.
Proof. solve_decision. Defined.

Global Instance result_eq_dec `{EqDecision A} : EqDecision (result A).
Proof. solve_decision. Defined.

Global Instance result_ret : MRet result := @Ok.
Global Instance result_bind : MBind result := λ A B f r,
  match r with
  | Ok a => f a
  | Raise e => Raise e
  end.

(** Insertion-ordered dictionary: the items in iteration order, keys
    pairwise distinct. *)
Record odict (K V : Type) `{EqDecision K} : Type := mk_odict {
  od_items : list (K * V);
  od_wf : bool_decide (NoDup od_items.*1)
}.
Global Arguments mk_odict {K V _} od_items od_wf.
Global Arguments od_items {K V _} _.
Global Arguments od_wf {K V _} _.

Section assoc.
Context {K V : Type} `{EqDecision K}.

Fixpoint al_get (k : K) (l : list (K * V)) : option V :=
  match l with
  | [] => None
  | (k', v) :: l' => if decide (k = k') then Some v else al_get k l'
  end.

(** [d[k] = v] on the items: an existing key keeps its position, a new
    key goes last. *)
Fixpoint al_set (k : K) (v : V) (l : list (K * V)) : list (K * V) :=
  match l with
  | [] => [(k, v)]
  | (k', v') :: l' =>
      if decide (k = k') then (k, v) :: l' else (k', v') :: al_set k v l'
  end.

Lemma al_set_keys k v l :
  (al_set k v l).*1 = if decide (k ∈ l.*1) then l.*1 else l.*1 ++ [k].
Proof.
  induction l as [|[k' v'] l IH].
  - by destruct (decide (k ∈ _)) as [?%elem_of_nil|].
  - cbn [al_set]. destruct (decide (k = k')) as [->|Hne].
    + rewrite decide_True; [done|]. cbn. left.
    + cbn [fmap list_fmap fst] in *. rewrite IH.
      destruct (decide (k ∈ l.*1)).
      * rewrite decide_True; [done|]. by right.
      * rewrite decide_False; [done|]. by intros [?|?]%elem_of_cons.
Qed.

Lemma al_set_NoDup k v l : NoDup l.*1 → NoDup (al_set k v l).*1.
Proof.
  intros Hl. rewrite al_set_keys. case_decide; [done|].
  apply NoDup_app. split_and!; [done| |apply NoDup_singleton].
  by intros x Hx ->%list_elem_of_singleton.
Qed.

Definition od_empty : odict K V := mk_odict [] I.

Definition od_get (k : K) (m : odict K V) : option V := al_get k (od_items m).

(** [k in m] *)
Definition od_mem (k : K) (m : odict K V) : bool := bool_decide (is_Some (od_get k m)).

Definition od_keys (m : odict K V) : list K := (od_items m).*1.

Definition od_set (k : K) (v : V) (m : odict K V) : odict K V :=
  mk_odict (al_set k v (od_items m))
    (bool_decide_pack _
       (al_set_NoDup k v (od_items m) (bool_decide_unpack _ (od_wf m)))).

(** [OrderedDict(pairs)] and [dict(pairs)]: the pairs are inserted one
    after the other, so a repeated key keeps its first position and its
    last value. *)
Definition od_of_list (pairs : list (K * V)) : odict K V :=
  foldl (λ m kv, od_set kv.1 kv.2 m) od_empty pairs.
End assoc.

(** A [QConfig] or [QConfigDynamic] object.  The resolver only passes such
    objects around, so an object is given by its identity. *)
Variant QConfig := QConfigObj (id : nat).

(** [QConfigAny = Union[QConfig, QConfigDynamic, None]] *)
Definition QConfigAny := option QConfig.

(** Keys of the per-section maps: a string (module name, regex pattern,
    method name) or a module type or function object, given by its
    identity. *)
Variant pykey :=
  | KStr (s : string)
  | KObj (id : nat).

Global Instance pykey_eq_dec : EqDecision pykey.
Proof. solve_decision. Defined.

Global Instance QConfig_eq_dec : EqDecision QConfig.
Proof. solve_decision. Defined.

Global Instance pykey_countable : Countable pykey.
Proof.
  refine (inj_countable'
    (λ k, match k with KStr s => inl s | KObj n => inr n end)
    (λ x, match x with inl s => KStr s | inr n => KObj n end) _).
  by intros [].
Defined.

(** The values found in a qconfig_dict: a qconfig (under the key ['']), a
    list of (key, qconfig) pairs as the user writes a section, or the
    [OrderedDict] that [convert_dict_to_ordered_dict] makes of it. *)
Variant pyvalue :=
  | VQConfig (q : QConfigAny)
  | VList (pairs : list (pykey * QConfigAny))
  | VODict (m : odict pykey QConfigAny).

(** A dictionary with string keys, such as qconfig_dict. *)
Definition pydict := odict string pyvalue.

(** [d[k]] *)
Definition getitem (d : pydict) (k : string) : result pyvalue :=
  match od_get k d with
  | Some v => Ok v
  | None => Raise KeyError
  end.

(** [v.items()]: only a dictionary has the attribute. *)
Definition py_items (v : pyvalue) : result (list (pykey * QConfigAny)) :=
  match v with
  | VODict m => Ok (od_items m)
  | _ => Raise AttributeError
  end.

(** [v.get(k, dflt)] *)
Definition py_get (v : pyvalue) (k : pykey) (dflt : QConfigAny) : result QConfigAny :=
  match v with
  | VODict m => Ok (default dflt (od_get k m))
  | _ => Raise AttributeError
  end.

(** [name in v] for a string [name]: key membership in a dictionary;
    element membership in a list of pairs or in a qconfig (a named tuple of
    two observer constructors), none of whose elements is a string; [None]
    is not iterable. *)
Definition py_contains (name : string) (v : pyvalue) : result bool :=
  match v with
  | VODict m => Ok (od_mem (KStr name) m)
  | VList _ => Ok false
  | VQConfig (Some _) => Ok false
  | VQConfig None => Raise TypeError
  end.

(** [v[name]] for a string [name]: a list or a tuple takes integer
    indices only. *)
Definition py_subscript (v : pyvalue) (name : string) : result QConfigAny :=
  match v with
  | VODict m =>
      match od_get (KStr name) m with
      | Some q => Ok q
      | None => Raise KeyError
      end
  | _ => Raise TypeError
  end.

(** [OrderedDict(v)]: from a list of pairs or from a dictionary; a qconfig
    or [None] is no sequence of pairs. *)
Definition OrderedDict (v : pyvalue) : result (odict pykey QConfigAny) :=
  match v with
  | VList pairs => Ok (od_of_list pairs)
  | VODict m => Ok m
  | VQConfig _ => Raise TypeError
  end.

End Py.
Import Py.

(** ** Regular expressions

    [re.match(pattern, string)] belongs to Python's library.  The resolver
    takes it as a parameter [re_match]: [Ok true] when the pattern matches
    at the start of the string (a match object), [Ok false] when it does not
    ([None]), [Raise ReError] when the pattern does not compile.  The
    theorems hold for every such engine.  The worked examples run on the
    engine below, which reads a fragment of Python's pattern syntax:
    ordinary characters, [.] (any character but a newline), the postfix
    star, alternation with [|], grouping with parentheses, and a backslash
    before a punctuation character.  The rest of the syntax ([^ $ + ? { } [ ]]
    and backslash escapes of letters and digits) is not interpreted, and the
    examples keep away from it. *)

Module ReFragment.

Inductive regex :=
  | Eps
  | Chr (c : ascii)
  | AnyChr
  | Cat (r1 r2 : regex)
  | Alt (r1 r2 : regex)
  | Star (r : regex).

(** An atom of a sequence under construction; [starred] records that the
    atom already carries a repetition, since Python rejects a second one
    ("multiple repeat"). *)
Record atom := mk_atom { atom_re : regex; starred : bool }.

(** One open group: the alternatives finished so far and the atoms of the
    current alternative, both latest first. *)
Record frame := mk_frame { alts : list regex; seq_rev : list atom }.

Definition seq_regex (atoms_rev : list atom) : regex :=
  foldl (λ acc a, Cat (atom_re a) acc) Eps atoms_rev.

Definition close_frame (f : frame) : regex :=
  foldl (λ acc r, Alt r acc) (seq_regex (seq_rev f)) (alts f).

Definition push_atom (r : regex) (f : frame) : frame :=
  mk_frame (alts f) (mk_atom r false :: seq_rev f).

(** The parser keeps the stack of open groups, innermost first; [None] is
    a pattern that Python's compiler rejects with [re.error]. *)
Fixpoint parse (pattern : string) (cur : frame) (outer : list frame) : option regex :=
  match pattern with
  | EmptyString =>
      match outer with
      | [] => Some (close_frame cur)
      | _ :: _ => None (* missing ), unterminated subpattern *)
      end
  | String c rest =>
      if decide (c = "("%char) then parse rest (mk_frame [] []) (cur :: outer)
      else if decide (c = ")"%char) then
        match outer with
        | [] => None (* unbalanced parenthesis *)
        | f :: outer' => parse rest (push_atom (close_frame cur) f) outer'
        end
      else if decide (c = "|"%char) then
        parse rest (mk_frame (seq_regex (seq_rev cur) :: alts cur) []) outer
      else if decide (c = "*"%char) then
        match seq_rev cur with
        | [] => None (* nothing to repeat *)
        | a :: atoms =>
            if starred a then None (* multiple repeat *)
            else parse rest (mk_frame (alts cur) (mk_atom (Star (atom_re a)) true :: atoms)) outer
        end
      else if decide (c = "."%char) then parse rest (push_atom AnyChr cur) outer
      else if decide (c = "\"%char) then
        match rest with
        | EmptyString => None (* bad escape (end of pattern) *)
        | String c' rest' => parse rest' (push_atom (Chr c') cur) outer
        end
      else parse rest (push_atom (Chr c) cur) outer
  end.

Fixpoint nullable (r : regex) : bool :=
  match r with
  | Eps | Star _ => true
  | Chr _ | AnyChr => false
  | Cat r1 r2 => nullable r1 && nullable r2
  | Alt r1 r2 => nullable r1 || nullable r2
  end.

(** [None] stands for the regex that matches nothing. *)
Definition cat_opt (o : option regex) (r2 : regex) : option regex :=
  (λ r1, Cat r1 r2) <$> o.

Definition alt_opt (o1 o2 : option regex) : option regex :=
  match o1, o2 with
  | Some r1, Some r2 => Some (Alt r1 r2)
  | Some r, None | None, Some r => Some r
  | None, None => None
  end.

(** Brzozowski derivative. *)
Fixpoint deriv (c : ascii) (r : regex) : option regex :=
  match r with
  | Eps => None
  | Chr c' => if decide (c = c') then Some Eps else None
  | AnyChr => if decide (c = "010"%char) then None else Some Eps
  | Cat r1 r2 =>
      alt_opt (cat_opt (deriv c r1) r2) (if nullable r1 then deriv c r2 else None)
  | Alt r1 r2 => alt_opt (deriv c r1) (deriv c r2)
  | Star r1 => cat_opt (deriv c r1) (Star r1)
  end.

(** Some prefix of [s] is in the language of [r]. *)
Fixpoint prefix_matches (r : regex) (s : string) : bool :=
  nullable r ||
  match s with
  | EmptyString => false
  | String c s' =>
      match deriv c r with
      | Some r' => prefix_matches r' s'
      | None => false
      end
  end.

Definition re_match (pattern s : string) : result bool :=
  match parse pattern (mk_frame [] []) [] with
  | Some r => Ok (prefix_matches r s)
  | None => Raise ReError
  end.

End ReFragment.

(** ** torch/quantization/fx/qconfig_utils.py *)

(** The flattened dictionary is an ordinary [dict] that is only looked up,
    so a finite map serves.  Its values are qconfigs, and whatever
    qconfig_dict holds under ['']. *)
Definition flatten_key (qconfig_dict : pydict) (key : string)
    (flattened : gmap pykey pyvalue) : result (gmap pykey pyvalue) :=
  match od_get key qconfig_dict with
  | Some v =>
      items ← py_items v;
      mret (foldl (λ fl oq, <[oq.1 := VQConfig oq.2]> fl) flattened items)
  | None => mret flattened
  end.

Definition get_flattened_qconfig_dict (qconfig_dict : pydict) : result (gmap pykey pyvalue) :=
  let flattened : gmap pykey pyvalue :=
    match od_get "" qconfig_dict with
    | Some v => <[KStr "" := v]> ∅
    | None => ∅
    end in
  flattened ← flatten_key qconfig_dict "object_type" flattened;
  flatten_key qconfig_dict "module_name" flattened.

(** [qconfig_dict[key] = OrderedDict(qconfig_dict.get(key, []))]; the
    dictionary is updated in place, here it is passed on. *)
Definition _convert_to_ordered_dict (key : string) (qconfig_dict : pydict) : result pydict :=
  m ← OrderedDict (default (VList []) (od_get key qconfig_dict));
  mret (od_set key (VODict m) qconfig_dict).

Definition convert_dict_to_ordered_dict (qconfig_dict : pydict) : result pydict :=
  qconfig_dict ← _convert_to_ordered_dict "object_type" qconfig_dict;
  qconfig_dict ← _convert_to_ordered_dict "module_name_regex" qconfig_dict;
  _convert_to_ordered_dict "module_name" qconfig_dict.

Definition get_object_type_qconfig (qconfig_dict : pydict) (object_type : pykey)
    (fallback_qconfig : QConfigAny) : result QConfigAny :=
  section ← getitem qconfig_dict "object_type";
  py_get section object_type fallback_qconfig.

Section regex.
Variable re_match : string → string → result bool.

(** [re.match(regex_pattern, module_name)] for a key of the regex map: a
    key that is no string is not a pattern. *)
Definition py_re_match (regex_pattern : pykey) (module_name : string) : result bool :=
  match regex_pattern with
  | KStr pattern => re_match pattern module_name
  | KObj _ => Raise TypeError
  end.

(** The loop of [get_module_name_regex_qconfig] over the items. *)
Fixpoint regex_loop (items : list (pykey * QConfigAny)) (module_name : string)
    (fallback_qconfig : QConfigAny) : result QConfigAny :=
  match items with
  | [] => mret fallback_qconfig
  | (regex_pattern, qconfig) :: rest =>
      matched ← py_re_match regex_pattern module_name;
      if matched : bool then mret qconfig (* first match wins *)
      else regex_loop rest module_name fallback_qconfig
  end.

Definition get_module_name_regex_qconfig (qconfig_dict : pydict) (module_name : string)
    (fallback_qconfig : QConfigAny) : result QConfigAny :=
  section ← getitem qconfig_dict "module_name_regex";
  items ← py_items section;
  regex_loop items module_name fallback_qconfig.
End regex.

(** [target.rsplit('.', 1)] when [target] has a dot: the text before the
    last dot and the text after it. *)
Fixpoint rsplit_dot (target : string) : option (string * string) :=
  match target with
  | EmptyString => None
  | String c rest =>
      match rsplit_dot rest with
      | Some (before, after) => Some (String c before, after)
      | None => if decide (c = "."%char) then Some (EmptyString, rest) else None
      end
  end.

(** Modelled from the spec: [_parent_name] is imported from
    torch/quantization/fx/utils.py, which is not among the sources.  It
    gives the parent scope of a module name, the name with its last
    dot-separated component removed, and that component: ["a.b.c"] has the
    parent ["a.b"].  A name of one component has the empty name as its
    parent, where the walk up the scopes ends. *)
Definition _parent_name (target : string) : string * string :=
  match rsplit_dot target with
  | Some (parent, name) => (parent, name)
  | None => (EmptyString, target)
  end.

Lemma rsplit_dot_shorter target parent name :
  rsplit_dot target = Some (parent, name) → String.length parent < String.length target.
Proof.
  revert parent name.
  induction target as [|c rest IH]; intros parent name; cbn; [done|].
  destruct (rsplit_dot rest) as [[before after]|].
  - intros [= <- <-]. specialize (IH _ _ eq_refl). cbn. lia.
  - case_decide; [|done]. intros [= <- <-]. cbn. lia.
Qed.

Lemma parent_name_shorter target :
  target ≠ EmptyString → String.length (_parent_name target).1 < String.length target.
Proof.
  intros Hne. unfold _parent_name.
  destruct (rsplit_dot target) as [[parent name]|] eqn:Hsplit; cbn.
  - by eapply rsplit_dot_shorter.
  - destruct target; [done|cbn; lia].
Qed.

(** The recursion goes to the parent scope, a shorter name. *)
Equations get_module_name_qconfig (qconfig_dict : pydict) (module_name : string)
    (fallback_qconfig : QConfigAny) : result QConfigAny
    by wf (String.length module_name) lt :=
  get_module_name_qconfig qconfig_dict module_name fallback_qconfig
    with decide (module_name = EmptyString) := {
    | left _ => mret fallback_qconfig (* module name qconfig not found *)
    | right _ =>
        section ← getitem qconfig_dict "module_name";
        found ← py_contains module_name section;
        if found : bool then
          section ← getitem qconfig_dict "module_name";
          py_subscript section module_name
        else
          get_module_name_qconfig qconfig_dict (_parent_name module_name).1
            fallback_qconfig }.
Next Obligation. by apply parent_name_shorter. Qed.

Definition get_qconfig (re_match : string → string → result bool)
    (qconfig_dict : pydict) (module_type : pykey) (module_name : string)
    (global_qconfig : QConfigAny) : result QConfigAny :=
  module_type_qconfig ← get_object_type_qconfig qconfig_dict module_type global_qconfig;
  module_name_regex_qconfig ←
    get_module_name_regex_qconfig re_match qconfig_dict module_name module_type_qconfig;
  module_name_qconfig ←
    get_module_name_qconfig qconfig_dict module_name module_name_regex_qconfig;
  mret module_name_qconfig.

(** *** Validation of the keys *)

(** [repr] of a string, for text in ASCII: quoted with ['], or with the
    double quote when the string has a ['] and no double quote; the quote
    in use and the backslash are escaped, control characters are written
    [\t], [\n], [\r] or [\xhh]. *)
Definition hex_digit (n : N) : ascii :=
  ascii_of_N (if (n <? 10)%N then 48 + n else 87 + n).

Definition repr_char (quote c : ascii) : string :=
  if decide (c = quote ∨ c = "\"%char) then String "\" (String c EmptyString)
  else if decide (c = "009"%char) then "\t"
  else if decide (c = "010"%char) then "\n"
  else if decide (c = "013"%char) then "\r"
  else if decide (N_of_ascii c < 32 ∨ N_of_ascii c = 127)%N then
    String "\" (String "x" (String (hex_digit (N_of_ascii c / 16))
      (String (hex_digit (N_of_ascii c mod 16)) EmptyString)))
  else String c EmptyString.

Fixpoint repr_body (quote : ascii) (s : string) : string :=
  match s with
  | EmptyString => EmptyString
  | String c rest => repr_char quote c +:+ repr_body quote rest
  end.

Fixpoint has_char (c : ascii) (s : string) : bool :=
  match s with
  | EmptyString => false
  | String c' rest => bool_decide (c = c') || has_char c rest
  end.

Definition py_repr (s : string) : string :=
  let quote :=
    if has_char "'" s && negb (has_char "034" s) then "034"%char else "'"%char in
  String quote (repr_body quote s +:+ String quote EmptyString).

Fixpoint join (sep : string) (parts : list string) : string :=
  match parts with
  | [] => EmptyString
  | [part] => part
  | part :: rest => part +:+ sep +:+ join sep rest
  end.

(** [str(allowed_keys)] for a set of strings.  A set is iterated in an
    order of its own; [elements] fixes one. *)
Definition py_str_set (keys : gset string) : string :=
  match elements keys with
  | [] => "set()"
  | listed => "{" +:+ join ", " (py_repr <$> listed) +:+ "}"
  end.

(** A dictionary key as the Python object it is. *)
Class PyKey (K : Type) := py_key : K → pykey.
#[global] Instance string_py_key : PyKey string := KStr.
#[global] Instance pykey_py_key : PyKey pykey := λ k, k.

(** [k in allowed_keys] for a set of strings: an object that is no string
    (a class, a function) equals none of them. *)
Definition py_in_set (k : pykey) (allowed_keys : gset string) : bool :=
  match k with
  | KStr s => bool_decide (s ∈ allowed_keys)
  | KObj _ => false
  end.

(** [text + k] for a string [text]: a string takes only a string on its
    right, and a class or a function has no [__radd__] to step in. *)
Definition py_str_add (text : string) (k : pykey) : result string :=
  match k with
  | KStr s => Ok (text +:+ s)
  | KObj _ => Raise TypeError
  end.

(** The loop of [check_is_valid_config_dict] over [config_dict.keys()].
    [config_dict] is declared [Any], so a key is any object; the message
    is put together from left to right before [ValueError] is called. *)
Fixpoint check_keys (keys : list pykey) (allowed_keys : gset string)
    (dict_name : string) : result unit :=
  match keys with
  | [] => mret ()
  | k :: rest =>
      if negb (py_in_set k allowed_keys) then
        found ← py_str_add
          ("Expected " +:+ dict_name +:+ " to have the following keys: " +:+
           py_str_set allowed_keys +:+ ". But found '") k;
        Raise (ValueError (found +:+ "' instead."))
      else check_keys rest allowed_keys dict_name
  end.

Definition check_is_valid_config_dict `{EqDecision K, PyKey K} {V : Type}
    (config_dict : odict K V)
    (allowed_keys : gset string) (dict_name : string) : result unit :=
  check_keys (py_key <$> od_keys config_dict) allowed_keys dict_name.

Definition qconfig_dict_allowed_keys : gset string :=
  {[ ""; "object_type"; "module_name_regex"; "module_name" ]}.

Definition check_is_valid_qconfig_dict (qconfig_dict : pydict) : result unit :=
  check_is_valid_config_dict qconfig_dict qconfig_dict_allowed_keys "qconfig_dict".

(** ** benchmarks/distributed/rpc/parameter_server/trainers/DdpTrainer.py *)

Module DdpTrainer.
Section HookState.
(** The trainer and the process group are objects the state only
    holds. *)
Context {Cref ProcessGroup : Type}.

Record HookState := mk_HookState {
  cref : Cref;
  process_group : ProcessGroup;
  batch_number : Z
}.

(** [__init__] *)
Definition init (cref : Cref) (process_group : ProcessGroup) : HookState :=
  mk_HookState cref process_group (-1).

(** [str] of an integer, as an f-string formats it. *)
Definition str_int (n : Z) : string := NilZero.string_of_int (Z.to_int n).

Definition get_key (self : HookState) (bucket_index : Z) : string :=
  str_int (batch_number self) +:+ "," +:+ str_int bucket_index.

(** [self.batch_number += 1]: the object is updated in place, here the
    new state is returned. *)
Definition next_batch (self : HookState) : HookState :=
  mk_HookState (cref self) (process_group self) (batch_number self + 1).
End HookState.
Global Arguments HookState : clear implicits.
End DdpTrainer.

(** ** Notions the properties are stated with *)

(** [part] occurs in [whole]. *)
Definition occurs_in (part whole : string) : Prop :=
  ∃ before after, whole = before +:+ part +:+ after.

(** The three sections of a qconfig_dict. *)
Definition sections : list string := ["object_type"; "module_name_regex"; "module_name"].

(** The pairs listed under a key of the dictionary the user wrote: none when
    the key is absent, those of the list or of the dictionary found there.
    A qconfig lists no pairs. *)
Definition listed_pairs (entry : option pyvalue) : option (list (pykey * QConfigAny)) :=
  match entry with
  | None => Some []
  | Some (VList pairs) => Some pairs
  | Some (VODict m) => Some (od_items m)
  | Some (VQConfig _) => None
  end.

(** A section read as a map: absent is empty. *)
Definition section_map (entry : option pyvalue) : option (odict pykey QConfigAny) :=
  match entry with
  | None => Some od_empty
  | Some (VODict m) => Some m
  | Some _ => None
  end.

(** The [n]-th enclosing scope of a module name. *)
Fixpoint ancestor (n : nat) (module_name : string) : string :=
  match n with
  | 0 => module_name
  | S n' => ancestor n' (_parent_name module_name).1
  end.

(** One call of [get_module_name_qconfig]: what it returns, or the name it
    calls itself with. *)
Definition module_name_call (qconfig_dict : pydict) (module_name : string)
    (fallback_qconfig : QConfigAny) : result QConfigAny + string :=
  if decide (module_name = EmptyString) then inl (Ok fallback_qconfig)
  else
    match getitem qconfig_dict "module_name" with
    | Raise e => inl (Raise e)
    | Ok section =>
        match py_contains module_name section with
        | Raise e => inl (Raise e)
        | Ok true =>
            inl (section ← getitem qconfig_dict "module_name";
                 py_subscript section module_name)
        | Ok false => inr (_parent_name module_name).1
        end
    end.

(** [returns_after d fb n name r]: the call on [name] returns [r] (a value
    or an exception) after [n] nested recursive calls. *)
Inductive returns_after (qconfig_dict : pydict) (fallback_qconfig : QConfigAny) :
    nat → string → result QConfigAny → Prop :=
  | returns_now module_name r :
      module_name_call qconfig_dict module_name fallback_qconfig = inl r →
      returns_after qconfig_dict fallback_qconfig 0 module_name r
  | returns_from_parent module_name parent n r :
      module_name_call qconfig_dict module_name fallback_qconfig = inr parent →
      returns_after qconfig_dict fallback_qconfig n parent r →
      returns_after qconfig_dict fallback_qconfig (S n) module_name r.

(** The proper prefixes of a name that end just before a dot, shortest
    first: ["a.b.c"] has ["a"] and ["a.b"]. *)
Fixpoint dotted_prefixes (name : string) : list string :=
  match name with
  | EmptyString => []
  | String c rest =>
      (if decide (c = "."%char) then [EmptyString] else []) ++
      (String c <$> dotted_prefixes rest)
  end.

(** The scopes whose entry applies to a module, nearest first: the module
    itself, then its enclosing scopes.  The root scope, of the empty name,
    is not among them. *)
Definition scopes (module_name : string) : list string :=
  filter (λ scope, scope ≠ EmptyString) (module_name :: reverse (dotted_prefixes module_name)).

(** The entry of the first of the names that has one. *)
Fixpoint first_entry (m : odict pykey QConfigAny) (names : list string) : option QConfigAny :=
  match names with
  | [] => None
  | name :: rest =>
      match od_get (KStr name) m with
      | Some q => Some q
      | None => first_entry m rest
      end
  end.

(** The qconfig of the first pattern, in iteration order, that matches. *)
Definition first_regex_match (re_match : string → string → result bool)
    (items : list (pykey * QConfigAny)) (module_name : string) : option QConfigAny :=
  snd <$>
    List.find (λ pq, bool_decide (py_re_match re_match pq.1 module_name = Ok true)) items.

(** The precedence order: module name, then regex, then object type, then
    the global default. *)
Definition by_precedence (module_name_hit regex_hit object_type_hit : option QConfigAny)
    (global_qconfig : QConfigAny) : QConfigAny :=
  default (default (default global_qconfig object_type_hit) regex_hit) module_name_hit.

(** The resolution with the module-name level read as the entry of
    [module_name] itself. *)
Definition direct_entry_precedence (re_match : string → string → result bool)
    (object_type module_name_regex module_name_map : odict pykey QConfigAny)
    (module_type : pykey) (module_name : string) (global_qconfig : QConfigAny) : QConfigAny :=
  by_precedence (od_get (KStr module_name) module_name_map)
    (first_regex_match re_match (od_items module_name_regex) module_name)
    (od_get module_type object_type) global_qconfig.

(** The resolution with the module-name level read as the entry of the
    nearest scope that has one. *)
Definition nearest_scope_precedence (re_match : string → string → result bool)
    (object_type module_name_regex module_name_map : odict pykey QConfigAny)
    (module_type : pykey) (module_name : string) (global_qconfig : QConfigAny) : QConfigAny :=
  by_precedence (first_entry module_name_map (scopes module_name))
    (first_regex_match re_match (od_items module_name_regex) module_name)
    (od_get module_type object_type) global_qconfig.

(** ** Worked examples *)

Definition example_object_type : odict pykey QConfigAny :=
  od_of_list [(KObj 7, Some (QConfigObj 3)); (KStr "relu", Some (QConfigObj 4))].

Definition example_module_name_regex : odict pykey QConfigAny :=
  od_of_list [(KStr "features.*conv", Some (QConfigObj 5)); (KStr "a", Some (QConfigObj 2))].

Definition example_module_name : odict pykey QConfigAny :=
  od_of_list [(KStr "a", Some (QConfigObj 1))].

(** A qconfig_dict after [convert_dict_to_ordered_dict]. *)
Definition example_qconfig_dict : pydict :=
  od_of_list
    [("", VQConfig (Some (QConfigObj 0)));
     ("object_type", VODict example_object_type);
     ("module_name_regex", VODict example_module_name_regex);
     ("module_name", VODict example_module_name)].

(** A pattern with an open parenthesis that is never closed, before a
    pattern that compiles. *)
Definition unclosed_group_regex : odict pykey QConfigAny :=
  od_of_list [(KStr "(conv", Some (QConfigObj 5)); (KStr "a", Some (QConfigObj 2))].

Definition unclosed_group_qconfig_dict : pydict :=
  od_of_list
    [("object_type", VODict example_object_type);
     ("module_name_regex", VODict unclosed_group_regex);
     ("module_name", VODict example_module_name)].

(** A qconfig_dict as the user writes it, with lists of pairs. *)
Definition example_user_dict : pydict :=
  od_of_list
    [("", VQConfig (Some (QConfigObj 0)));
     ("module_name", VList [(KStr "conv", Some (QConfigObj 1)); (KStr "fc", None)]);
     ("object_type", VList [(KObj 7, Some (QConfigObj 3))])].

(** The same module listed twice. *)
Definition repeated_name_dict : pydict :=
  od_of_list
    [("module_name",
      VList [(KStr "conv", Some (QConfigObj 1)); (KStr "conv", Some (QConfigObj 2))])].

(** The empty string as a key of the 'module_name' section. *)
Definition root_name_dict : pydict :=
  od_of_list
    [("", VQConfig (Some (QConfigObj 0)));
     ("module_name", VODict (od_of_list [(KStr "", Some (QConfigObj 1))]))].

(** A dictionary with a module type among its keys, as eager mode
    quantization takes them: [{'': qconfig, torch.nn.Conv2d: qconfig}]. *)
Definition module_type_keyed_dict : odict pykey QConfigAny :=
  od_of_list [(KStr "", Some (QConfigObj 0)); (KObj 7, Some (QConfigObj 3))].

(** ** qconfig_utils.py: the qconfig of every node of a graph *)

(** A node of the traced graph, as far as [generate_qconfig_map] reads it:
    [op], [name] and [target] (a qualified name, a method name or a function
    object). *)
Record node := mk_node {
  node_op : string;
  node_name : string;
  node_target : pykey
}.

(** [d[k]] for a dictionary with string keys and values of any type. *)
Definition od_index {V : Type} (d : odict string V) (k : string) : result V :=
  match od_get k d with
  | Some v => Ok v
  | None => Raise KeyError
  end.

(** [qconfig_dict.get("", None)].  By the function's type the entry is a
    qconfig; [None] here stands for an entry that is none, which the
    embedding does not cover. *)
Definition global_qconfig_of (qconfig_dict : pydict) : option QConfigAny :=
  match od_get "" qconfig_dict with
  | None => Some None
  | Some (VQConfig q) => Some q
  | Some _ => None
  end.

Section generate_qconfig_map.
Variable re_match : string → string → result bool.
(** [type(m)] for a module object [m]; objects and types are given by their
    identity. *)
Variable type_of : nat → nat.
(** [modules]: the module object under each qualified name. *)
Variable modules : odict string nat.
Variable qconfig_dict : pydict.
(** [node_name_to_scope]: the path and the type of the module a node
    belongs to. *)
Variable node_name_to_scope : odict string (string * pykey).
Variable global_qconfig : QConfigAny.

(** The body of the loop, up to [qconfig_map[node.name] = qconfig]: the
    qconfig of the node, and the [qconfig] attributes of the module objects
    ([attrs]) after it.  A target that is no string has no [rsplit] for
    [_parent_name] and is no key of [modules]. *)
Definition node_step (attrs : gmap nat QConfigAny) (n : node) :
    result (QConfigAny * gmap nat QConfigAny) :=
  if decide (node_op n = "get_attr") then
    module_name ← match node_target n with
                   | KStr target => Ok (_parent_name target).1
                   | KObj _ => Raise AttributeError
                   end;
    m ← od_index modules module_name;
    qconfig ← get_qconfig re_match qconfig_dict (KObj (type_of m)) module_name global_qconfig;
    mret (qconfig, attrs)
  else if decide (node_op n = "call_function") then
    (* precedence: module_name_qconfig > function_qconfig > global_qconfig *)
    function_qconfig ← get_object_type_qconfig qconfig_dict (node_target n) global_qconfig;
    scope ← od_index node_name_to_scope (node_name n);
    qconfig ← get_qconfig re_match qconfig_dict scope.2 scope.1 function_qconfig;
    mret (qconfig, attrs)
  else if decide (node_op n = "call_method") then
    scope ← od_index node_name_to_scope (node_name n);
    qconfig ← get_qconfig re_match qconfig_dict scope.2 scope.1 global_qconfig;
    mret (qconfig, attrs)
  else if decide (node_op n = "call_module") then
    match node_target n with
    | KStr target =>
        m ← od_index modules target;
        qconfig ← get_qconfig re_match qconfig_dict (KObj (type_of m)) target global_qconfig;
        m ← od_index modules target;
        mret (qconfig, <[m := qconfig]> attrs)
    | KObj _ => Raise KeyError
    end
  else mret (None, attrs).

(** The loop over [input_graph.nodes]. *)
Fixpoint qconfig_map_loop (nodes : list node) (attrs : gmap nat QConfigAny)
    (qconfig_map : gmap string QConfigAny) :
    result (gmap string QConfigAny * gmap nat QConfigAny) :=
  match nodes with
  | [] => mret (qconfig_map, attrs)
  | n :: rest =>
      '(qconfig, attrs) ← node_step attrs n;
      qconfig_map_loop rest attrs (<[node_name n := qconfig]> qconfig_map)
  end.
End generate_qconfig_map.

(** [generate_qconfig_map]; [root] is not used and left out.  Beside the
    map it returns, the function sets the [qconfig] attribute of module
    objects: [attrs] holds the attributes before, and the result those
    after. *)
Definition generate_qconfig_map (re_match : string → string → result bool)
    (type_of : nat → nat) (attrs : gmap nat QConfigAny)
    (modules : odict string nat) (input_graph : list node) (qconfig_dict : pydict)
    (node_name_to_scope : odict string (string * pykey)) :
    option (result (gmap string QConfigAny * gmap nat QConfigAny)) :=
  global_qconfig ← global_qconfig_of qconfig_dict;
  Some (qconfig_map_loop re_match type_of modules qconfig_dict node_name_to_scope
          global_qconfig input_graph attrs ∅).

(** ** qconfig_utils.py: the custom configuration dictionaries *)

Section custom_config.
Context {V : Type}.

(** [check_is_valid_config_dict] as the three checks below call it: on a
    dictionary they declare [Dict[str, Any]]. *)
Definition check_config_keys (config_dict : odict string V)
    (allowed_keys : gset string) (dict_name : string) : result unit :=
  check_is_valid_config_dict config_dict allowed_keys dict_name.

(** [not config_dict]: [None] and the empty dictionary count as false. *)
Definition py_not (config_dict : option (odict string V)) : bool :=
  match config_dict with
  | None => true
  | Some d => match od_items d with [] => true | _ :: _ => false end
  end.

Definition prepare_custom_config_dict_allowed_keys : gset string :=
  {[ "standalone_module_name";
     "standalone_module_class";
     "float_to_observed_custom_module_class";
     "non_traceable_module_name";
     "non_traceable_module_class";
     "additional_fuser_method_mapping";
     "additional_qat__module_mapping";
     "additional_fusion_pattern";
     "additional_quant_pattern";
     "input_quantized_idxs";
     "output_quantized_idxs";
     "preserved_attributes" ]}.

Definition check_is_valid_prepare_custom_config_dict
    (prepare_custom_config_dict : option (odict string V)) : result unit :=
  if py_not prepare_custom_config_dict then mret ()
  else
    match prepare_custom_config_dict with
    | Some d =>
        check_config_keys d prepare_custom_config_dict_allowed_keys
          "prepare_custom_config_dict"
    | None => mret ()
    end.

Definition convert_custom_config_dict_allowed_keys : gset string :=
  {[ "additional_object_mapping";
     "observed_to_quantized_custom_module_class";
     "preserved_attributes" ]}.

Definition check_is_valid_convert_custom_config_dict
    (convert_custom_config_dict : option (odict string V)) : result unit :=
  if py_not convert_custom_config_dict then mret ()
  else
    match convert_custom_config_dict with
    | Some d =>
        check_config_keys d convert_custom_config_dict_allowed_keys
          "convert_custom_config_dict"
    | None => mret ()
    end.

Definition fuse_custom_config_dict_allowed_keys : gset string :=
  {[ "additional_fuser_method_mapping"; "preserved_attributes" ]}.

Definition check_is_valid_fuse_custom_config_dict
    (fuse_custom_config_dict : option (odict string V)) : result unit :=
  if py_not fuse_custom_config_dict then mret ()
  else
    match fuse_custom_config_dict with
    | Some d =>
        check_config_keys d fuse_custom_config_dict_allowed_keys
          "fuse_custom_config_dict"
    | None => mret ()
    end.
End custom_config.

(** What one of the three checks of a custom configuration dictionary does,
    given its allowed keys and the name it reports: it accepts [None] and
    every dictionary all of whose keys are allowed, and rejects any other
    with a [ValueError] that names the first key, in iteration order, that
    is not allowed. *)
Definition checks_keys_against {V : Type} (check : option (odict string V) → result unit)
    (allowed_keys : gset string) (dict_name : string) : Prop :=
  ∀ config_dict,
    (check config_dict = Ok () ↔
       ∀ d, config_dict = Some d → ∀ k, k ∈ od_keys d → k ∈ allowed_keys)
    ∧ (∀ e, check config_dict = Raise e →
         ∃ d accepted k rest,
           config_dict = Some d
           ∧ od_keys d = accepted ++ k :: rest
           ∧ Forall (λ k', k' ∈ allowed_keys) accepted
           ∧ (k ∉ allowed_keys)
           ∧ e = ValueError
                   ("Expected " +:+ dict_name +:+ " to have the following keys: " +:+
                    py_str_set allowed_keys +:+ ". But found '" +:+ k +:+ "' instead.")).

(** The module object whose [qconfig] attribute a node sets: that of the
    target of a [call_module] node. *)
Definition module_set_by (modules : odict string nat) (n : node) : option nat :=
  if decide (node_op n = "call_module") then
    match node_target n with
    | KStr target => od_get target modules
    | KObj _ => None
    end
  else None.

(** A small traced graph for the examples: the modules by name (objects 1
    to 3), the type of each object, the nodes and their scopes. *)
Definition example_modules : odict string nat :=
  od_of_list [("features.0.conv", 1); ("classifier", 2); ("a", 3)].

Definition example_type_of (m : nat) : nat :=
  match m with
  | 1 => 7
  | _ => 9
  end.

Definition example_graph : list node :=
  [mk_node "placeholder" "x" (KStr "x");
   mk_node "call_module" "features_0_conv" (KStr "features.0.conv");
   mk_node "call_function" "add" (KObj 20);
   mk_node "call_method" "relu_1" (KStr "relu");
   mk_node "get_attr" "classifier_weight" (KStr "classifier.weight");
   mk_node "call_module" "a" (KStr "a");
   mk_node "output" "output" (KStr "output")].

Definition example_scope : odict string (string * pykey) :=
  od_of_list [("add", ("classifier", KObj 7)); ("relu_1", ("a.b", KObj 9))].

(** ** DdpTrainer.py: the keys of the metrics and the training loop *)

Module DdpTrainerRun.
Import DdpTrainer.

(** [epoch_key]: [f"{epoch},{index}"] *)
Definition epoch_key (epoch index : Z) : string :=
  str_int epoch +:+ "," +:+ str_int index.

Section run.
Context {Cref ProcessGroup Tensor : Type}.

(** The calls [iteration_step] makes on the trainer, the model, the loss and
    the optimizer, which belong to the framework and the base class.
    [loss.backward()] is where the framework runs the communication hook
    with the hook state, so the call carries the state as it is then. *)
Variant call :=
  | record_batch_start (key : string)
  | zero_grad
  | record_forward_start (key : string)
  | forward (input : Tensor)
  | record_forward_end (key : string)
  | criterion (target : Tensor)
  | record_backward_start (key : string)
  | backward (hook_state : HookState Cref ProcessGroup)
  | record_backward_end (key : string)
  | optimizer_step
  | record_batch_end (key : string).

(** A batch is a list of which the first two elements are read; here, the
    pair of them.  The hook state is updated in place; here, the new state
    is returned with the calls made. *)
Definition iteration_step (hook_state : HookState Cref ProcessGroup)
    (epoch index : Z) (batch : Tensor * Tensor) :
    HookState Cref ProcessGroup * list call :=
  let hook_state := next_batch hook_state in
  let '(input, target) := batch in
  (hook_state,
   [record_batch_start (epoch_key epoch index);
    zero_grad;
    record_forward_start (epoch_key epoch index);
    forward input;
    record_forward_end (epoch_key epoch index);
    criterion target;
    record_backward_start (epoch_key epoch index);
    backward hook_state;
    record_backward_end (epoch_key epoch index);
    optimizer_step;
    record_batch_end (epoch_key epoch index)]).

(** [for index, batch in enumerate(data)], from [index] on. *)
Fixpoint batches_loop (hook_state : HookState Cref ProcessGroup) (epoch index : Z)
    (data : list (Tensor * Tensor)) : HookState Cref ProcessGroup * list call :=
  match data with
  | [] => (hook_state, [])
  | batch :: rest =>
      let '(hook_state, calls) := iteration_step hook_state epoch index batch in
      let '(hook_state, calls') := batches_loop hook_state epoch (index + 1) rest in
      (hook_state, calls ++ calls')
  end.

(** [for epoch in range(self.epochs)], from [epoch] on, [count] epochs. *)
Fixpoint epochs_loop (hook_state : HookState Cref ProcessGroup) (epoch : Z)
    (count : nat) (data : list (Tensor * Tensor)) :
    HookState Cref ProcessGroup * list call :=
  match count with
  | 0 => (hook_state, [])
  | S count' =>
      let '(hook_state, calls) := batches_loop hook_state epoch 0 data in
      let '(hook_state, calls') := epochs_loop hook_state (epoch + 1) count' data in
      (hook_state, calls ++ calls')
  end.

(** [preprocess_data]: both tensors of every batch go to the GPU; [cuda] is
    the framework's. *)
Definition preprocess_data (cuda : Tensor → Tensor) (data : list (Tensor * Tensor)) :
    list (Tensor * Tensor) :=
  (λ batch, (cuda batch.1, cuda batch.2)) <$> data.

(** [train], from the hook state that [create_ddp_model] makes on: the
    state after the last iteration and the calls of all iterations.
    [range] of a negative number is empty. *)
Definition train (self : Cref) (process_group : ProcessGroup) (epochs : Z)
    (cuda : Tensor → Tensor) (data : list (Tensor * Tensor)) :
    HookState Cref ProcessGroup * list call :=
  let data := preprocess_data cuda data in
  let hook_state := init self process_group in
  epochs_loop hook_state 0 (Z.to_nat epochs) data.

(** The batch numbers the hook sees, in the order of the backward passes. *)
Definition backward_batch_numbers (calls : list call) : list Z :=
  omap (λ c, match c with
             | backward hook_state => Some (batch_number hook_state)
             | _ => None
             end) calls.

(** The keys under which the start of a batch is recorded, in order. *)
Definition batch_start_keys (calls : list call) : list string :=
  omap (λ c, match c with
             | record_batch_start key => Some key
             | _ => None
             end) calls.
End run.
Global Arguments call : clear implicits.
End DdpTrainerRun.

(** * Properties *)

(** ** Dictionaries *)

Section odict_facts.
Context {K V : Type} `{EqDecision K}.
Implicit Types (m : odict K V) (l : list (K * V)).

Lemma od_eq m1 m2 : od_items m1 = od_items m2 → m1 = m2.
Proof.
  destruct m1 as [l1 wf1], m2 as [l2 wf2]; cbn. intros ->.
  f_equal. apply proof_irrel.
Qed.

Lemma od_NoDup m : NoDup (od_keys m).
Proof. apply (bool_decide_unpack _), od_wf. Qed.

Lemma al_get_set k k' v l :
  al_get k' (al_set k v l) = if decide (k' = k) then Some v else al_get k' l.
Proof.
  induction l as [|[k0 v0] l IH]; cbn.
  - by repeat case_decide.
  - destruct (decide (k = k0)) as [->|]; cbn; repeat case_decide; congruence.
Qed.

Lemma od_get_set k k' v m :
  od_get k' (od_set k v m) = if decide (k' = k) then Some v else od_get k' m.
Proof. apply al_get_set. Qed.

Lemma al_get_None k l : al_get k l = None ↔ k ∉ l.*1.
Proof.
  induction l as [|[k0 v0] l IH]; cbn.
  - split; [intros _; apply not_elem_of_nil|done].
  - rewrite not_elem_of_cons. case_decide; [|tauto].
    split; [done|]. by intros [? _].
Qed.

Lemma al_get_Some k v l : NoDup l.*1 → al_get k l = Some v ↔ (k, v) ∈ l.
Proof.
  induction l as [|[k0 v0] l IH]; cbn.
  - intros _. split; [done|by intros ?%elem_of_nil].
  - intros [Hk0 Hl]%NoDup_cons. rewrite elem_of_cons.
    case_decide as Hk; subst.
    + split; [intros [= ->]; by left|].
      intros [[= ->]|Hin]; [done|]. destruct Hk0.
      apply list_elem_of_fmap. by exists (k0, v).
    + rewrite (IH Hl). split; [by right|]. by intros [[= -> ->]|?].
Qed.

Lemma od_get_Some k v m : od_get k m = Some v ↔ (k, v) ∈ od_items m.
Proof. apply al_get_Some, od_NoDup. Qed.

Lemma od_get_None k m : od_get k m = None ↔ k ∉ od_keys m.
Proof. apply al_get_None. Qed.

Lemma al_set_fresh k v l : k ∉ l.*1 → al_set k v l = l ++ [(k, v)].
Proof.
  induction l as [|[k0 v0] l IH]; cbn; [done|].
  intros [? ?]%not_elem_of_cons. rewrite decide_False by done. by rewrite IH.
Qed.

Lemma od_of_list_items_from m l :
  NoDup (od_items m ++ l).*1 →
  od_items (foldl (λ m kv, od_set kv.1 kv.2 m) m l) = od_items m ++ l.
Proof.
  revert m. induction l as [|[k v] l IH]; intros m Hnd; cbn.
  - by rewrite app_nil_r.
  - rewrite IH; cbn.
    + rewrite al_set_fresh, <-app_assoc; [done|].
      rewrite fmap_app in Hnd. apply NoDup_app in Hnd as (_ & Hnd & _).
      intros Hk. apply (Hnd k Hk). left.
    + rewrite al_set_fresh, <-app_assoc; [done|].
      rewrite fmap_app in Hnd. apply NoDup_app in Hnd as (_ & Hnd & _).
      intros Hk. apply (Hnd k Hk). left.
Qed.

(** A list of pairs with distinct keys becomes the dictionary with just
    these items, in this order. *)
Lemma od_of_list_items l : NoDup l.*1 → od_items (od_of_list l) = l.
Proof. intros Hnd. by apply (od_of_list_items_from od_empty). Qed.
End odict_facts.

(** ** The hook state of the DDP trainer *)

Section hook_state.
Import DdpTrainer.
Context {Cref ProcessGroup : Type}.
Implicit Types (self : HookState Cref ProcessGroup).

Lemma batch_number_iter (n : nat) self :
  batch_number (Nat.iter n next_batch self) = (batch_number self + Z.of_nat n)%Z.
Proof.
  induction n as [|n IH]; simpl.
  - lia.
  - rewrite IH. lia.
Qed.

(** C10.  A new hook state has batch number -1.  [next_batch] adds exactly
    one to the batch number and leaves [cref] and [process_group] as they
    are.  Hence after [n] calls of [next_batch] on a new state,
    [get_key bucket_index] is the decimal text of [n - 1], a comma and the
    decimal text of [bucket_index]; after the first call it starts with
    ["0,"]. *)
Theorem HookState_batch_counter (c : Cref) (pg : ProcessGroup) self
    (n : nat) (bucket_index : Z) :
  batch_number (init c pg) = (-1)%Z
  ∧ cref (init c pg) = c ∧ process_group (init c pg) = pg
  ∧ batch_number (next_batch self) = (batch_number self + 1)%Z
  ∧ cref (next_batch self) = cref self
  ∧ process_group (next_batch self) = process_group self
  ∧ get_key (Nat.iter n next_batch (init c pg)) bucket_index
    = str_int (Z.of_nat n - 1) +:+ "," +:+ str_int bucket_index
  ∧ get_key (next_batch (init c pg)) bucket_index = "0," +:+ str_int bucket_index.
Proof.
  split_and!; try reflexivity.
  unfold get_key. rewrite batch_number_iter. cbn [init batch_number].
  by replace (-1 + Z.of_nat n)%Z with (Z.of_nat n - 1)%Z by lia.
Qed.
End hook_state.

(** ** Validation of the keys *)

Section validation.
Implicit Types (keys : list pykey) (allowed_keys : gset string).

Lemma append_assoc (s1 s2 s3 : string) : (s1 +:+ s2) +:+ s3 = s1 +:+ s2 +:+ s3.
Proof.
  induction s1 as [|c s1 IH]; [done|].
  change (String c ((s1 +:+ s2) +:+ s3) = String c (s1 +:+ s2 +:+ s3)).
  by f_equal.
Qed.

Lemma append_empty_r (s : string) : s +:+ EmptyString = s.
Proof.
  induction s as [|c s IH]; [done|].
  change (String c (s +:+ EmptyString) = String c s). by f_equal.
Qed.

Lemma occurs_in_here part after : occurs_in part (part +:+ after).
Proof. by exists EmptyString, after. Qed.

Lemma occurs_in_app_r part s whole : occurs_in part whole → occurs_in part (s +:+ whole).
Proof.
  intros (before & after & ->). exists (s +:+ before), after.
  by rewrite append_assoc.
Qed.

Lemma occurs_in_app_l part whole s : occurs_in part whole → occurs_in part (whole +:+ s).
Proof.
  intros (before & after & ->). exists before, (after +:+ s).
  by rewrite !append_assoc.
Qed.

Lemma occurs_in_trans s1 s2 s3 : occurs_in s1 s2 → occurs_in s2 s3 → occurs_in s1 s3.
Proof.
  intros H12 (before & after & ->). by apply occurs_in_app_r, occurs_in_app_l.
Qed.

Lemma occurs_in_join sep part parts : part ∈ parts → occurs_in part (join sep parts).
Proof.
  induction parts as [|p parts IH]; [by intros ?%elem_of_nil|].
  intros [->|Hin]%elem_of_cons; destruct parts as [|p' parts].
  - exists EmptyString, EmptyString. symmetry. apply append_empty_r.
  - apply occurs_in_here.
  - by apply elem_of_nil in Hin.
  - apply occurs_in_app_r, occurs_in_app_r, IH, Hin.
Qed.

(** The text of the set shows every one of its keys. *)
Lemma repr_occurs_in_str_set a allowed_keys :
  a ∈ allowed_keys → occurs_in (py_repr a) (py_str_set allowed_keys).
Proof.
  intros Ha%elem_of_elements. unfold py_str_set.
  destruct (elements allowed_keys) as [|k listed] eqn:Hl; [by apply elem_of_nil in Ha|].
  apply occurs_in_app_r, occurs_in_app_l, occurs_in_join.
  by apply list_elem_of_fmap_2.
Qed.

(** The loop on keys of any kind: it accepts when every key is allowed,
    and otherwise ends at the first key that is not, in a [ValueError] when
    that key is a string and in a [TypeError] when it is not. *)
Lemma check_keys_accepts keys allowed_keys dict_name :
  check_keys keys allowed_keys dict_name = Ok ()
  ↔ Forall (λ k, py_in_set k allowed_keys) keys.
Proof.
  induction keys as [|k keys IH]; cbn [check_keys].
  - split; [constructor|done].
  - rewrite Forall_cons. destruct (py_in_set k allowed_keys) eqn:Hk; cbn [negb].
    + rewrite IH. split; [done|]. by intros [_ ?].
    + split; [by destruct k|]. by intros [? _].
Qed.

Lemma check_keys_rejects keys allowed_keys dict_name e :
  check_keys keys allowed_keys dict_name = Raise e ↔
  ∃ accepted k rest,
    keys = accepted ++ k :: rest
    ∧ Forall (λ k', py_in_set k' allowed_keys) accepted
    ∧ ¬ py_in_set k allowed_keys
    ∧ e = match k with
          | KStr s =>
              ValueError
                ("Expected " +:+ dict_name +:+ " to have the following keys: " +:+
                 py_str_set allowed_keys +:+ ". But found '" +:+ s +:+ "' instead.")
          | KObj _ => TypeError
          end.
Proof.
  assert (∀ k, check_keys [k] allowed_keys dict_name ≠ Ok () →
            check_keys [k] allowed_keys dict_name
            = Raise match k with
                    | KStr s =>
                        ValueError
                          ("Expected " +:+ dict_name +:+
                           " to have the following keys: " +:+
                           py_str_set allowed_keys +:+ ". But found '" +:+ s +:+
                           "' instead.")
                    | KObj _ => TypeError
                    end) as Hone.
  { intros k. cbn [check_keys]. destruct (py_in_set k allowed_keys); [done|].
    intros _. destruct k as [s|o]; [|done]. cbn.
    by rewrite !append_assoc. }
  split.
  - induction keys as [|k keys IH]; cbn [check_keys]; [done|].
    destruct (py_in_set k allowed_keys) eqn:Hk; cbn [negb].
    + intros (accepted & k' & rest & -> & ? & ? & ->)%IH.
      exists (k :: accepted), k', rest. split_and!; try done.
      constructor; [by rewrite Hk|done].
    + intros Hraise. exists [], k, keys. split_and!; [done|apply Forall_nil_2|rewrite Hk; intros []|].
      specialize (Hone k). cbn [check_keys] in Hone. rewrite Hk in Hone. cbn [negb] in Hone.
      rewrite Hone in Hraise by (by destruct k). by injection Hraise as <-.
  - intros (accepted & k & rest & -> & Hacc & Hk & ->).
    induction Hacc as [|k' accepted Hk' _ IH]; cbn [app check_keys].
    + specialize (Hone k). cbn [check_keys] in Hone.
      destruct (py_in_set k allowed_keys); [by destruct Hk|]. cbn [negb] in *.
      rewrite <-Hone by (by destruct k). by destruct k.
    + by destruct (py_in_set k' allowed_keys).
Qed.

(** The loop on the keys of a dictionary with string keys. *)
Lemma check_keys_Ok (keys : list string) allowed_keys dict_name :
  check_keys (py_key <$> keys) allowed_keys dict_name = Ok ()
  ↔ Forall (λ k, k ∈ allowed_keys) keys.
Proof.
  rewrite check_keys_accepts, Forall_fmap. apply Forall_proper; [|done].
  intros k. cbn. by rewrite bool_decide_spec.
Qed.

Lemma check_keys_Raise (keys : list string) allowed_keys dict_name e :
  check_keys (py_key <$> keys) allowed_keys dict_name = Raise e ↔
  ∃ accepted k rest,
    keys = accepted ++ k :: rest
    ∧ Forall (λ k', k' ∈ allowed_keys) accepted
    ∧ (k ∉ allowed_keys)
    ∧ e = ValueError
            ("Expected " +:+ dict_name +:+ " to have the following keys: " +:+
             py_str_set allowed_keys +:+ ". But found '" +:+ k +:+ "' instead.").
Proof.
  rewrite check_keys_rejects. split.
  - intros (accepted & k & rest & Hkeys & Hacc & Hk & ->).
    apply fmap_app_inv in Hkeys as (accepted' & tail & -> & Htail & ->).
    symmetry in Htail. apply fmap_cons_inv in Htail as (k' & rest' & -> & -> & ->).
    exists accepted', k', rest'. split_and!; [done| | |done].
    + apply Forall_forall. intros s Hs. rewrite Forall_forall in Hacc.
      by apply (bool_decide_unpack _ (Hacc _ (list_elem_of_fmap_2 py_key _ _ Hs))).
    + intros Hin. apply Hk. by apply bool_decide_pack.
  - intros (accepted & k & rest & -> & Hacc & Hk & ->).
    exists (py_key <$> accepted), (KStr k), (py_key <$> rest). split_and!.
    + by rewrite fmap_app.
    + apply Forall_forall. intros ? (s & -> & Hs)%list_elem_of_fmap.
      rewrite Forall_forall in Hacc. by apply bool_decide_pack, Hacc.
    + by intros ?%bool_decide_unpack.
    + done.
Qed.

Lemma check_keys_total keys allowed_keys dict_name :
  check_keys keys allowed_keys dict_name = Ok ()
  ∨ ∃ e, check_keys keys allowed_keys dict_name = Raise e.
Proof. destruct (check_keys keys allowed_keys dict_name) as [[]|e]; eauto. Qed.

(** C2.  [check_is_valid_qconfig_dict] raises an error exactly when the
    dictionary has a key outside the allowed set, and returns normally
    exactly when all its keys are in the set; the allowed keys are [""],
    ["object_type"], ["module_name_regex"] and ["module_name"]. *)
Theorem check_is_valid_qconfig_dict_rejects_iff (config_dict : pydict) :
  ((∃ e, check_is_valid_qconfig_dict config_dict = Raise e) ↔
     ∃ k, k ∈ od_keys config_dict ∧ k ∉ qconfig_dict_allowed_keys)
  ∧ (check_is_valid_qconfig_dict config_dict = Ok () ↔
       ∀ k, k ∈ od_keys config_dict → k ∈ qconfig_dict_allowed_keys)
  ∧ (∀ k, k ∈ qconfig_dict_allowed_keys ↔
       k ∈ [""; "object_type"; "module_name_regex"; "module_name"]).
Proof.
  unfold check_is_valid_qconfig_dict, check_is_valid_config_dict.
  split_and!.
  - split.
    + intros (e & (accepted & k & rest & Hkeys & _ & Hk & _)%check_keys_Raise).
      exists k. split; [|done]. rewrite Hkeys.
      apply elem_of_app. right. left.
    + intros (k & Hin & Hk).
      destruct (check_keys_total (py_key <$> od_keys config_dict) qconfig_dict_allowed_keys
                  "qconfig_dict") as [Hok|?]; [|done].
      apply check_keys_Ok in Hok. rewrite Forall_forall in Hok.
      destruct Hk. by apply Hok.
  - by rewrite check_keys_Ok, Forall_forall.
  - intros k. unfold qconfig_dict_allowed_keys.
    rewrite !elem_of_union, !elem_of_singleton, !elem_of_cons, elem_of_nil.
    tauto.
Qed.

(** The docstring's example passes; an unknown key is reported. *)
Example check_is_valid_qconfig_dict_on_examples :
  check_is_valid_qconfig_dict example_user_dict = Ok ()
  ∧ check_is_valid_qconfig_dict example_qconfig_dict = Ok ()
  ∧ check_is_valid_qconfig_dict
      (od_of_list [("object_type", VList []); ("module_names", VList []); ("bogus", VList [])])
    = Raise (ValueError
        ("Expected qconfig_dict to have the following keys: " +:+
         py_str_set qconfig_dict_allowed_keys +:+ ". But found 'module_names' instead.")).
Proof. by vm_compute. Qed.

(** C3.  When [check_is_valid_config_dict] rejects a dictionary, the error
    comes from the first key, in iteration order, that is not allowed: the
    keys before it are all allowed, and the keys after it play no part
    (every dictionary whose keys start the same way is rejected with the
    same error).  When that key is a string, the error is a [ValueError]
    whose message contains the key, the text of the whole allowed set, in
    which every allowed key shows, and the dictionary's name.  When it is
    any other object, a module type for one, the error is the [TypeError]
    of adding the key to the text of the message: it names neither the key
    nor the allowed set. *)
Theorem check_is_valid_config_dict_fails_fast `{EqDecision K, PyKey K} {V : Type}
    (config_dict : odict K V) allowed_keys (dict_name : string) (e : pyexn) :
  check_is_valid_config_dict config_dict allowed_keys dict_name = Raise e →
  ∃ accepted k rest,
    py_key <$> od_keys config_dict = accepted ++ k :: rest
    ∧ Forall (λ k', py_in_set k' allowed_keys) accepted
    ∧ ¬ py_in_set k allowed_keys
    ∧ (∀ other : odict K V,
         (∃ rest', py_key <$> od_keys other = accepted ++ k :: rest') →
         check_is_valid_config_dict other allowed_keys dict_name = Raise e)
    ∧ match k with
      | KStr s =>
          ∃ msg,
            e = ValueError msg
            ∧ msg = "Expected " +:+ dict_name +:+ " to have the following keys: " +:+
                    py_str_set allowed_keys +:+ ". But found '" +:+ s +:+ "' instead."
            ∧ occurs_in s msg
            ∧ occurs_in (py_str_set allowed_keys) msg
            ∧ (∀ a, a ∈ allowed_keys → occurs_in (py_repr a) msg)
            ∧ occurs_in dict_name msg
      | KObj _ => e = TypeError ∧ ∀ msg, e ≠ ValueError msg
      end.
Proof.
  unfold check_is_valid_config_dict.
  intros (accepted & k & rest & Hkeys & Hacc & Hk & ->)%check_keys_rejects.
  exists accepted, k, rest. split_and!; try done.
  - intros other [rest' Hother]. apply check_keys_rejects.
    by exists accepted, k, rest'.
  - destruct k as [s|o]; [|done]. eexists. split_and!; try done.
    + do 5 apply occurs_in_app_r. apply occurs_in_here.
    + do 3 apply occurs_in_app_r. apply occurs_in_here.
    + intros a Ha. do 3 apply occurs_in_app_r.
      by apply occurs_in_app_l, repr_occurs_in_str_set.
    + apply occurs_in_app_r, occurs_in_here.
Qed.

Lemma check_is_valid_config_dict_fails_fast_witness :
  check_is_valid_config_dict module_type_keyed_dict qconfig_dict_allowed_keys "qconfig_dict"
  = Raise TypeError
  ∧ ∃ accepted k rest,
      py_key <$> od_keys module_type_keyed_dict = accepted ++ k :: rest
      ∧ Forall (λ k', py_in_set k' qconfig_dict_allowed_keys) accepted
      ∧ ¬ py_in_set k qconfig_dict_allowed_keys
      ∧ (∀ other : odict pykey QConfigAny,
           (∃ rest', py_key <$> od_keys other = accepted ++ k :: rest') →
           check_is_valid_config_dict other qconfig_dict_allowed_keys "qconfig_dict"
           = Raise TypeError)
      ∧ match k with
        | KStr s =>
            ∃ msg,
              TypeError = ValueError msg
              ∧ msg = "Expected " +:+ "qconfig_dict" +:+ " to have the following keys: " +:+
                      py_str_set qconfig_dict_allowed_keys +:+ ". But found '" +:+ s +:+
                      "' instead."
              ∧ occurs_in s msg
              ∧ occurs_in (py_str_set qconfig_dict_allowed_keys) msg
              ∧ (∀ a, a ∈ qconfig_dict_allowed_keys → occurs_in (py_repr a) msg)
              ∧ occurs_in "qconfig_dict" msg
        | KObj _ => TypeError = TypeError ∧ ∀ msg, TypeError ≠ ValueError msg
        end.
Proof.
  split; [by vm_compute|].
  apply (check_is_valid_config_dict_fails_fast module_type_keyed_dict
           qconfig_dict_allowed_keys "qconfig_dict").
  vm_compute. reflexivity.
Defined.

(** A string key that is not allowed is reported by name; a key that is
    no string is not. *)
Example check_is_valid_config_dict_on_examples :
  check_is_valid_config_dict
    (od_of_list [("", VQConfig None); ("bogus", VList []); ("module_name", VList [])])
    qconfig_dict_allowed_keys "qconfig_dict"
  = Raise (ValueError
      ("Expected qconfig_dict to have the following keys: " +:+
       py_str_set qconfig_dict_allowed_keys +:+ ". But found 'bogus' instead."))
  ∧ check_is_valid_config_dict
      (od_of_list [(KStr "", Some (QConfigObj 0)); (KStr "bogus", None); (KObj 7, None)])
      qconfig_dict_allowed_keys "qconfig_dict"
    = Raise (ValueError
        ("Expected qconfig_dict to have the following keys: " +:+
         py_str_set qconfig_dict_allowed_keys +:+ ". But found 'bogus' instead."))
  ∧ check_is_valid_config_dict module_type_keyed_dict qconfig_dict_allowed_keys
      "qconfig_dict"
    = Raise TypeError.
Proof. by vm_compute. Qed.
End validation.

(** ** Resolution by module name *)

Section module_name.
Implicit Types (d : pydict) (m : odict pykey QConfigAny) (fb : QConfigAny).

Lemma get_module_name_qconfig_call d module_name fb :
  get_module_name_qconfig d module_name fb =
  match module_name_call d module_name fb with
  | inl r => r
  | inr parent => get_module_name_qconfig d parent fb
  end.
Proof.
  rewrite get_module_name_qconfig_equation_1. unfold module_name_call.
  destruct (decide (module_name = EmptyString)); cbn; [done|].
  destruct (getitem d "module_name") as [section|e]; cbn; [|done].
  by destruct (py_contains module_name section) as [[]|e].
Qed.

Lemma module_name_call_parent d module_name fb parent :
  module_name_call d module_name fb = inr parent →
  module_name ≠ EmptyString ∧ parent = (_parent_name module_name).1.
Proof.
  unfold module_name_call. case_decide; [done|].
  destruct (getitem d "module_name") as [section|]; [|done].
  destruct (py_contains module_name section) as [[]|]; [done| |done].
  by intros [= <-].
Qed.

Lemma module_name_call_entry d m module_name fb q :
  od_get "module_name" d = Some (VODict m) → module_name ≠ EmptyString →
  od_get (KStr module_name) m = Some q →
  module_name_call d module_name fb = inl (Ok q).
Proof.
  intros Hd Hne Hq. unfold module_name_call, getitem.
  rewrite decide_False, Hd by done. unfold py_contains, od_mem.
  rewrite Hq, bool_decide_true by done. unfold py_subscript, mbind, result_bind.
  by rewrite Hq.
Qed.

Lemma module_name_call_no_entry d m module_name fb :
  od_get "module_name" d = Some (VODict m) → module_name ≠ EmptyString →
  od_get (KStr module_name) m = None →
  module_name_call d module_name fb = inr (_parent_name module_name).1.
Proof.
  intros Hd Hne Hq. unfold module_name_call, getitem.
  rewrite decide_False, Hd by done. unfold py_contains, od_mem.
  rewrite Hq, bool_decide_false; [done|]. by intros [? ?].
Qed.

Lemma get_module_name_qconfig_empty d fb :
  get_module_name_qconfig d EmptyString fb = Ok fb.
Proof. by rewrite get_module_name_qconfig_call. Qed.

Lemma ancestor_empty n : ancestor n EmptyString = EmptyString.
Proof. induction n as [|n IH]; [done|]. apply IH. Qed.

Lemma ancestor_short n module_name :
  String.length module_name ≤ n → ancestor n module_name = EmptyString.
Proof.
  revert module_name. induction n as [|n IH]; intros module_name Hlen.
  - destruct module_name; [done|cbn in Hlen; lia].
  - cbn [ancestor]. destruct (decide (module_name = EmptyString)) as [->|Hne].
    + apply ancestor_empty.
    + apply IH. pose proof (parent_name_shorter module_name Hne). lia.
Qed.

Lemma resolves_to_ancestor_entry d m fb n module_name q :
  od_get "module_name" d = Some (VODict m) →
  (∀ j, j < n → od_get (KStr (ancestor j module_name)) m = None) →
  ancestor n module_name ≠ EmptyString →
  od_get (KStr (ancestor n module_name)) m = Some q →
  get_module_name_qconfig d module_name fb = Ok q.
Proof.
  intros Hd. revert module_name.
  induction n as [|n IH]; intros module_name Hbelow Hne Hq;
    rewrite get_module_name_qconfig_call.
  - by erewrite module_name_call_entry.
  - assert (module_name ≠ EmptyString) by (intros ->; by rewrite ancestor_empty in Hne).
    erewrite module_name_call_no_entry; [|done..|apply (Hbelow 0); lia].
    apply IH; [|done..]. intros j Hj. apply (Hbelow (S j)). lia.
Qed.

Lemma resolves_to_fallback d m fb n module_name :
  od_get "module_name" d = Some (VODict m) →
  (∀ j, j < n → od_get (KStr (ancestor j module_name)) m = None) →
  ancestor n module_name = EmptyString →
  get_module_name_qconfig d module_name fb = Ok fb.
Proof.
  intros Hd. revert module_name.
  induction n as [|n IH]; intros module_name Hbelow Hempty.
  - cbn in Hempty. subst. apply get_module_name_qconfig_empty.
  - destruct (decide (module_name = EmptyString)) as [->|Hne];
      [apply get_module_name_qconfig_empty|].
    rewrite get_module_name_qconfig_call.
    erewrite module_name_call_no_entry; [|done..|apply (Hbelow 0); lia].
    apply IH; [|done]. intros j Hj. apply (Hbelow (S j)). lia.
Qed.

(** C4.  When the 'module_name' map has no entry for [module_name], the
    result is that of the call on the parent scope, the first component of
    [_parent_name module_name].  Going up scope by scope, the entry of the
    nearest enclosing scope that has one is returned; when the empty name is
    reached, no scope before it having an entry, the fallback is
    returned. *)
Theorem get_module_name_qconfig_parent_scope d m (module_name : string) fb :
  od_get "module_name" d = Some (VODict m) →
  od_get (KStr module_name) m = None →
  get_module_name_qconfig d module_name fb
    = get_module_name_qconfig d (_parent_name module_name).1 fb
  ∧ (∀ n q,
       (∀ j, j < n → od_get (KStr (ancestor j module_name)) m = None) →
       ancestor n module_name ≠ EmptyString →
       od_get (KStr (ancestor n module_name)) m = Some q →
       get_module_name_qconfig d module_name fb = Ok q)
  ∧ (∀ n,
       (∀ j, j < n → od_get (KStr (ancestor j module_name)) m = None) →
       ancestor n module_name = EmptyString →
       get_module_name_qconfig d module_name fb = Ok fb).
Proof.
  intros Hd Hnone. split_and!.
  - destruct (decide (module_name = EmptyString)) as [->|Hne]; [done|].
    rewrite get_module_name_qconfig_call at 1.
    by erewrite module_name_call_no_entry.
  - intros n q. by apply resolves_to_ancestor_entry.
  - intros n. by apply resolves_to_fallback.
Qed.

Lemma returns_after_bounded d fb n module_name :
  String.length module_name ≤ n →
  ∃ k r, k ≤ String.length module_name
         ∧ returns_after d fb k module_name r
         ∧ get_module_name_qconfig d module_name fb = r.
Proof.
  revert module_name. induction n as [|n IH]; intros module_name Hlen;
    rewrite get_module_name_qconfig_call;
    destruct (module_name_call d module_name fb) as [r|parent] eqn:Hcall.
  - exists 0, r. split_and!; [lia|by constructor|done].
  - apply module_name_call_parent in Hcall as [Hne _].
    destruct module_name; [done|cbn in Hlen; lia].
  - exists 0, r. split_and!; [lia|by constructor|done].
  - pose proof Hcall as [Hne ->]%module_name_call_parent.
    pose proof (parent_name_shorter module_name Hne) as Hshort.
    destruct (IH (_parent_name module_name).1) as (k & r & Hk & Hret & Hget); [lia|].
    exists (S k), r. split_and!; [lia| |done].
    by eapply returns_from_parent.
Qed.

(** C5.  For every dictionary, module name and fallback, going from the
    module name to its parent scope again and again reaches the empty name
    within as many steps as the name has characters; on the empty name the
    function returns the fallback at once; and the call on [module_name]
    returns (a value or an exception) after at most that many nested
    calls. *)
Theorem get_module_name_qconfig_terminates d (module_name : string) fb :
  (∃ k, k ≤ String.length module_name ∧ ancestor k module_name = EmptyString)
  ∧ get_module_name_qconfig d EmptyString fb = Ok fb
  ∧ (∃ n r, n ≤ String.length module_name
            ∧ returns_after d fb n module_name r
            ∧ get_module_name_qconfig d module_name fb = r).
Proof.
  split_and!.
  - exists (String.length module_name). split; [done|]. by apply ancestor_short.
  - apply get_module_name_qconfig_empty.
  - by apply (returns_after_bounded d fb (String.length module_name)).
Qed.

Lemma dotted_prefixes_no_dot name : rsplit_dot name = None → dotted_prefixes name = [].
Proof.
  induction name as [|c rest IH]; cbn; [done|].
  destruct (rsplit_dot rest) as [[before after]|]; [done|].
  case_decide; [done|]. intros _. by rewrite IH.
Qed.

Lemma dotted_prefixes_last_dot name parent last :
  rsplit_dot name = Some (parent, last) →
  dotted_prefixes name = dotted_prefixes parent ++ [parent].
Proof.
  revert parent. induction name as [|c rest IH]; intros parent; cbn; [done|].
  destruct (rsplit_dot rest) as [[before after]|] eqn:Hrest.
  - intros [= <- <-]. rewrite (IH before eq_refl), fmap_app. cbn.
    by rewrite app_assoc.
  - case_decide; [|done]. intros [= <- <-].
    by rewrite dotted_prefixes_no_dot.
Qed.

Lemma scopes_empty : scopes EmptyString = [].
Proof. done. Qed.

(** The scopes of a name are the name and the scopes of its parent. *)
Lemma scopes_parent module_name :
  module_name ≠ EmptyString →
  scopes module_name = module_name :: scopes (_parent_name module_name).1.
Proof.
  intros Hne. unfold scopes at 1. rewrite filter_cons_True by done. f_equal.
  unfold _parent_name.
  destruct (rsplit_dot module_name) as [[parent last]|] eqn:Hsplit; cbn.
  - by rewrite (dotted_prefixes_last_dot _ _ _ Hsplit), reverse_snoc.
  - by rewrite dotted_prefixes_no_dot.
Qed.

Lemma get_module_name_qconfig_scopes d m module_name fb :
  od_get "module_name" d = Some (VODict m) →
  get_module_name_qconfig d module_name fb
    = Ok (default fb (first_entry m (scopes module_name))).
Proof.
  intros Hd.
  assert (∀ n name, String.length name ≤ n →
            get_module_name_qconfig d name fb
              = Ok (default fb (first_entry m (scopes name)))) as Hall;
    [|by apply (Hall (String.length module_name))].
  induction n as [|n IH]; intros name Hlen;
    (destruct (decide (name = EmptyString)) as [->|Hne];
       [by rewrite get_module_name_qconfig_empty|]).
  - destruct name; [done|cbn in Hlen; lia].
  - rewrite get_module_name_qconfig_call, scopes_parent by done.
    cbn [first_entry].
    destruct (od_get (KStr name) m) as [q|] eqn:Hq.
    + by erewrite module_name_call_entry.
    + erewrite module_name_call_no_entry by done.
      apply IH. pose proof (parent_name_shorter name Hne). lia.
Qed.
End module_name.

(** ** Resolution by regex, and the precedence order *)

Section resolution.
Variable re_match : string → string → result bool.
Implicit Types (d : pydict) (ot re mn : odict pykey QConfigAny) (fb : QConfigAny).
Implicit Types (items : list (pykey * QConfigAny)) (module_name : string).

Lemma regex_loop_first_match before p q after module_name fb :
  Forall (λ pq, py_re_match re_match pq.1 module_name = Ok false) before →
  py_re_match re_match p module_name = Ok true →
  regex_loop re_match (before ++ (p, q) :: after) module_name fb = Ok q.
Proof.
  intros Hbefore Hp.
  induction Hbefore as [|[p' q'] before Hp' _ IH]; cbn [regex_loop app].
  - by rewrite Hp.
  - cbn in Hp'. by rewrite Hp'.
Qed.

Lemma regex_loop_no_match items module_name fb :
  Forall (λ pq, py_re_match re_match pq.1 module_name = Ok false) items →
  regex_loop re_match items module_name fb = Ok fb.
Proof.
  induction 1 as [|[p q] items Hp _ IH]; cbn [regex_loop]; [done|].
  cbn in Hp. by rewrite Hp.
Qed.

Lemma regex_loop_find items module_name fb :
  Forall (λ pq, ∃ b, py_re_match re_match pq.1 module_name = Ok b) items →
  regex_loop re_match items module_name fb
    = Ok (default fb (first_regex_match re_match items module_name)).
Proof.
  unfold first_regex_match.
  induction 1 as [|[p q] items [b Hp] _ IH]; cbn [regex_loop List.find]; [done|].
  cbn in Hp. cbn [fst]. rewrite Hp. destruct b; cbn [mbind result_bind].
  - by rewrite bool_decide_true.
  - by rewrite bool_decide_false.
Qed.

(** C6, as amended.  With an ordered map under 'module_name_regex': when a
    pattern matches [module_name] and [re.match] finds no match for every
    pattern before it in iteration order, [get_module_name_regex_qconfig]
    returns the qconfig of that pattern, whatever the patterns before and
    after it are; when [re.match] finds no match for any pattern, it returns
    the fallback.  So when [re.match] raises on no pattern, the result is
    the qconfig of the first pattern that matches, or else the fallback. *)
Theorem get_module_name_regex_qconfig_first_match d re module_name fb :
  od_get "module_name_regex" d = Some (VODict re) →
  (∀ before p q after,
     od_items re = before ++ (p, q) :: after →
     Forall (λ pq, py_re_match re_match pq.1 module_name = Ok false) before →
     py_re_match re_match p module_name = Ok true →
     get_module_name_regex_qconfig re_match d module_name fb = Ok q)
  ∧ (Forall (λ pq, py_re_match re_match pq.1 module_name = Ok false) (od_items re) →
     get_module_name_regex_qconfig re_match d module_name fb = Ok fb)
  ∧ ((∀ p, p ∈ od_keys re → ∃ b, py_re_match re_match p module_name = Ok b) →
     get_module_name_regex_qconfig re_match d module_name fb
     = Ok (default fb (first_regex_match re_match (od_items re) module_name))).
Proof.
  intros Hd. unfold get_module_name_regex_qconfig, getitem. rewrite Hd.
  cbn [mbind result_bind py_items]. split_and!.
  - intros before p q after -> Hbefore Hp. by apply regex_loop_first_match.
  - apply regex_loop_no_match.
  - intros Hvalid. apply regex_loop_find, Forall_forall.
    intros [p q] Hin. apply Hvalid, list_elem_of_fmap. by exists (p, q).
Qed.

Lemma get_object_type_qconfig_map d ot (object_type : pykey) fb :
  od_get "object_type" d = Some (VODict ot) →
  get_object_type_qconfig d object_type fb = Ok (default fb (od_get object_type ot)).
Proof. intros Hd. unfold get_object_type_qconfig, getitem. by rewrite Hd. Qed.

Lemma get_module_name_regex_qconfig_map d re module_name fb :
  od_get "module_name_regex" d = Some (VODict re) →
  (∀ p, p ∈ od_keys re → ∃ b, py_re_match re_match p module_name = Ok b) →
  get_module_name_regex_qconfig re_match d module_name fb
    = Ok (default fb (first_regex_match re_match (od_items re) module_name)).
Proof.
  intros Hd Hvalid. unfold get_module_name_regex_qconfig, getitem. rewrite Hd.
  cbn [mbind result_bind py_items]. apply regex_loop_find.
  apply Forall_forall. intros [p q] Hin. apply Hvalid.
  apply list_elem_of_fmap. by exists (p, q).
Qed.

Lemma get_qconfig_resolved d ot re mn (module_type : pykey) module_name
    (global_qconfig : QConfigAny) :
  od_get "object_type" d = Some (VODict ot) →
  od_get "module_name_regex" d = Some (VODict re) →
  od_get "module_name" d = Some (VODict mn) →
  (∀ p, p ∈ od_keys re → ∃ b, py_re_match re_match p module_name = Ok b) →
  get_qconfig re_match d module_type module_name global_qconfig
    = Ok (nearest_scope_precedence re_match ot re mn module_type module_name global_qconfig).
Proof.
  intros Hot Hre Hmn Hvalid. unfold get_qconfig.
  rewrite (get_object_type_qconfig_map _ _ _ _ Hot). cbn [mbind result_bind].
  rewrite (get_module_name_regex_qconfig_map _ _ _ _ Hre Hvalid).
  cbn [mbind result_bind].
  by rewrite (get_module_name_qconfig_scopes _ _ _ _ Hmn).
Qed.

(** C1, as amended.  With maps under the three section keys, and [re.match]
    raising on no pattern of the regex map, [get_qconfig] resolves by this
    order: the 'module_name' entry of the module name or, failing that, of
    its nearest enclosing scope that has one (the empty name has no scope);
    otherwise the first matching 'module_name_regex' entry; otherwise the
    'object_type' entry of the module type; otherwise the global qconfig. *)
Theorem get_qconfig_precedence d ot re mn (module_type : pykey) module_name
    (global_qconfig : QConfigAny) :
  od_get "object_type" d = Some (VODict ot) →
  od_get "module_name_regex" d = Some (VODict re) →
  od_get "module_name" d = Some (VODict mn) →
  (∀ p, p ∈ od_keys re → ∃ b, py_re_match re_match p module_name = Ok b) →
  get_qconfig re_match d module_type module_name global_qconfig
    = Ok (nearest_scope_precedence re_match ot re mn module_type module_name global_qconfig)
  ∧ nearest_scope_precedence re_match ot re mn module_type module_name global_qconfig
    = match first_entry mn (scopes module_name) with
      | Some q => q
      | None =>
          match first_regex_match re_match (od_items re) module_name with
          | Some q => q
          | None =>
              match od_get module_type ot with
              | Some q => q
              | None => global_qconfig
              end
          end
      end.
Proof.
  intros Hot Hre Hmn Hvalid. split.
  - by apply get_qconfig_resolved.
  - unfold nearest_scope_precedence, by_precedence.
    by repeat case_match.
Qed.

(** No resolver catches an exception: what a helper raises, [get_qconfig]
    raises. *)
Lemma get_qconfig_raises d (module_type : pykey) module_name
    (global_qconfig : QConfigAny) (e : pyexn) :
  get_qconfig re_match d module_type module_name global_qconfig = Raise e ↔
    get_object_type_qconfig d module_type global_qconfig = Raise e
    ∨ (∃ q1, get_object_type_qconfig d module_type global_qconfig = Ok q1
             ∧ get_module_name_regex_qconfig re_match d module_name q1 = Raise e)
    ∨ (∃ q1 q2, get_object_type_qconfig d module_type global_qconfig = Ok q1
                ∧ get_module_name_regex_qconfig re_match d module_name q1 = Ok q2
                ∧ get_module_name_qconfig d module_name q2 = Raise e).
Proof.
  unfold get_qconfig.
  destruct (get_object_type_qconfig d module_type global_qconfig) as [q1|e1];
    cbn [mbind result_bind];
    [destruct (get_module_name_regex_qconfig re_match d module_name q1)
       as [q2|e2] eqn:Hregex;
       cbn [mbind result_bind];
       [destruct (get_module_name_qconfig d module_name q2) as [q3|e3] eqn:Hname;
          cbn [mbind result_bind mret result_ret]|]|];
    (split;
       [intros He; first [discriminate He|injection He as <-; eauto 10]
       |intros [He|[(x1 & He1 & He)|(x1 & x2 & He1 & He2 & He)]]; congruence]).
Qed.

(** C7, as amended.  With maps under the three section keys, and [re.match]
    raising on no pattern of the regex map, the three resolvers and
    [get_qconfig] return a value for every module type, module name and
    fallback. *)
Theorem resolvers_return d ot re mn (module_type : pykey) module_name
    (global_qconfig fb : QConfigAny) :
  od_get "object_type" d = Some (VODict ot) →
  od_get "module_name_regex" d = Some (VODict re) →
  od_get "module_name" d = Some (VODict mn) →
  (∀ p, p ∈ od_keys re → ∃ b, py_re_match re_match p module_name = Ok b) →
  (∃ q, get_object_type_qconfig d module_type fb = Ok q)
  ∧ (∃ q, get_module_name_regex_qconfig re_match d module_name fb = Ok q)
  ∧ (∃ q, get_module_name_qconfig d module_name fb = Ok q)
  ∧ (∃ q, get_qconfig re_match d module_type module_name global_qconfig = Ok q).
Proof.
  intros Hot Hre Hmn Hvalid. split_and!; eexists.
  - by apply get_object_type_qconfig_map.
  - by apply get_module_name_regex_qconfig_map.
  - by apply get_module_name_qconfig_scopes.
  - by eapply get_qconfig_resolved.
Qed.
End resolution.

(** *** The precedence order on the worked example *)

Lemma example_patterns_compile module_name p :
  p ∈ od_keys example_module_name_regex →
  ∃ b, py_re_match ReFragment.re_match p module_name = Ok b.
Proof.
  change (od_keys example_module_name_regex)
    with [KStr "features.*conv"; KStr "a"].
  intros Hp. repeat (apply elem_of_cons in Hp as [->|Hp]).
  - by eexists.
  - by eexists.
  - by apply elem_of_nil in Hp.
Qed.

(** C1, counterexample.  In the example, "a.b" has no entry of its own in
    the 'module_name' map and the pattern "a" of the regex map matches it,
    so the order read with the entry of the module name itself gives the
    qconfig of the pattern; the code returns the qconfig of the enclosing
    scope "a". *)
Lemma get_qconfig_enclosing_scope_before_regex :
  od_get (KStr "a.b") example_module_name = None
  ∧ first_regex_match ReFragment.re_match (od_items example_module_name_regex) "a.b"
    = Some (Some (QConfigObj 2))
  ∧ direct_entry_precedence ReFragment.re_match example_object_type
      example_module_name_regex example_module_name (KObj 9) "a.b" (Some (QConfigObj 0))
    = Some (QConfigObj 2)
  ∧ get_qconfig ReFragment.re_match example_qconfig_dict (KObj 9) "a.b" (Some (QConfigObj 0))
    = Ok (Some (QConfigObj 1))
  ∧ get_qconfig ReFragment.re_match example_qconfig_dict (KObj 9) "a.b" (Some (QConfigObj 0))
    ≠ Ok (direct_entry_precedence ReFragment.re_match example_object_type
            example_module_name_regex example_module_name (KObj 9) "a.b"
            (Some (QConfigObj 0))).
Proof. by vm_compute. Qed.

Lemma get_qconfig_precedence_witness :
  get_qconfig ReFragment.re_match example_qconfig_dict (KObj 7) "features.0.conv"
    (Some (QConfigObj 0))
    = Ok (nearest_scope_precedence ReFragment.re_match example_object_type
            example_module_name_regex example_module_name (KObj 7) "features.0.conv"
            (Some (QConfigObj 0)))
  ∧ nearest_scope_precedence ReFragment.re_match example_object_type
      example_module_name_regex example_module_name (KObj 7) "features.0.conv"
      (Some (QConfigObj 0))
    = match first_entry example_module_name (scopes "features.0.conv") with
      | Some q => q
      | None =>
          match first_regex_match ReFragment.re_match
                  (od_items example_module_name_regex) "features.0.conv" with
          | Some q => q
          | None =>
              match od_get (KObj 7) example_object_type with
              | Some q => q
              | None => Some (QConfigObj 0)
              end
          end
      end.
Proof.
  apply (get_qconfig_precedence ReFragment.re_match example_qconfig_dict
           example_object_type example_module_name_regex example_module_name
           (KObj 7) "features.0.conv" (Some (QConfigObj 0)));
    [reflexivity..|apply example_patterns_compile].
Defined.

(** The order at work on the example: a regex hit, an object-type hit, the
    global default, and the root scope, whose name is never looked up. *)
Example get_qconfig_on_example :
  get_qconfig ReFragment.re_match example_qconfig_dict (KObj 7) "features.0.conv"
    (Some (QConfigObj 0)) = Ok (Some (QConfigObj 5))
  ∧ get_qconfig ReFragment.re_match example_qconfig_dict (KObj 7) "classifier"
      (Some (QConfigObj 0)) = Ok (Some (QConfigObj 3))
  ∧ get_qconfig ReFragment.re_match example_qconfig_dict (KObj 9) "classifier"
      (Some (QConfigObj 0)) = Ok (Some (QConfigObj 0))
  ∧ get_qconfig ReFragment.re_match example_qconfig_dict (KObj 9) "a"
      (Some (QConfigObj 0)) = Ok (Some (QConfigObj 1))
  ∧ get_module_name_qconfig
      (od_of_list [("module_name", VODict (od_of_list [(KStr "", Some (QConfigObj 1))]))])
      "" None = Ok None.
Proof. by vm_compute. Qed.

Lemma get_module_name_qconfig_parent_scope_witness :
  od_get "module_name" example_qconfig_dict = Some (VODict example_module_name)
  ∧ od_get (KStr "a.b.c") example_module_name = None
  ∧ get_module_name_qconfig example_qconfig_dict "a.b.c" None
    = get_module_name_qconfig example_qconfig_dict (_parent_name "a.b.c").1 None
  ∧ (∀ n q,
       (∀ j, j < n → od_get (KStr (ancestor j "a.b.c")) example_module_name = None) →
       ancestor n "a.b.c" ≠ EmptyString →
       od_get (KStr (ancestor n "a.b.c")) example_module_name = Some q →
       get_module_name_qconfig example_qconfig_dict "a.b.c" None = Ok q)
  ∧ (∀ n,
       (∀ j, j < n → od_get (KStr (ancestor j "a.b.c")) example_module_name = None) →
       ancestor n "a.b.c" = EmptyString →
       get_module_name_qconfig example_qconfig_dict "a.b.c" None = Ok None).
Proof.
  split; [reflexivity|]. split; [reflexivity|].
  apply (get_module_name_qconfig_parent_scope example_qconfig_dict
           example_module_name "a.b.c" None); reflexivity.
Defined.

(** C6, counterexample.  The pattern "a" is the first that matches "a.b",
    and the pattern before it matches nothing: it does not compile, and
    [re.match] raises [re.error] on it.  The code raises where the first
    matching pattern has a qconfig to return. *)
Lemma get_module_name_regex_qconfig_raises_before_match :
  od_get "module_name_regex" unclosed_group_qconfig_dict
    = Some (VODict unclosed_group_regex)
  ∧ od_items unclosed_group_regex
    = [(KStr "(conv", Some (QConfigObj 5)); (KStr "a", Some (QConfigObj 2))]
  ∧ py_re_match ReFragment.re_match (KStr "(conv") "a.b" = Raise ReError
  ∧ py_re_match ReFragment.re_match (KStr "a") "a.b" = Ok true
  ∧ first_regex_match ReFragment.re_match (od_items unclosed_group_regex) "a.b"
    = Some (Some (QConfigObj 2))
  ∧ get_module_name_regex_qconfig ReFragment.re_match unclosed_group_qconfig_dict
      "a.b" None = Raise ReError.
Proof. by vm_compute. Qed.

Lemma get_module_name_regex_qconfig_first_match_witness :
  od_get "module_name_regex" example_qconfig_dict = Some (VODict example_module_name_regex)
  ∧ (∀ before p q after,
       od_items example_module_name_regex = before ++ (p, q) :: after →
       Forall (λ pq, py_re_match ReFragment.re_match pq.1 "a.b" = Ok false) before →
       py_re_match ReFragment.re_match p "a.b" = Ok true →
       get_module_name_regex_qconfig ReFragment.re_match example_qconfig_dict "a.b" None
       = Ok q)
  ∧ (Forall (λ pq, py_re_match ReFragment.re_match pq.1 "a.b" = Ok false)
       (od_items example_module_name_regex) →
     get_module_name_regex_qconfig ReFragment.re_match example_qconfig_dict "a.b" None
     = Ok None)
  ∧ ((∀ p, p ∈ od_keys example_module_name_regex →
           ∃ b, py_re_match ReFragment.re_match p "a.b" = Ok b) →
     get_module_name_regex_qconfig ReFragment.re_match example_qconfig_dict "a.b" None
     = Ok (default None
             (first_regex_match ReFragment.re_match
                (od_items example_module_name_regex) "a.b"))).
Proof.
  split; [reflexivity|].
  apply (get_module_name_regex_qconfig_first_match ReFragment.re_match
           example_qconfig_dict example_module_name_regex "a.b" None).
  reflexivity.
Defined.

(** The regex level on the example: the second pattern is the first that
    matches "a.b", and no pattern matches "classifier". *)
Example get_module_name_regex_qconfig_on_example :
  get_module_name_regex_qconfig ReFragment.re_match example_qconfig_dict "a.b" None
    = Ok (Some (QConfigObj 2))
  ∧ get_module_name_regex_qconfig ReFragment.re_match example_qconfig_dict
      "features.0.conv" None = Ok (Some (QConfigObj 5))
  ∧ get_module_name_regex_qconfig ReFragment.re_match example_qconfig_dict
      "classifier" (Some (QConfigObj 8)) = Ok (Some (QConfigObj 8)).
Proof. by vm_compute. Qed.

(** Without the conversion there is nothing to resolve from: a section
    that is still a list has no [get] or [items], a missing section is a
    [KeyError]. *)
Example get_qconfig_needs_the_maps :
  get_qconfig ReFragment.re_match example_user_dict (KObj 7) "conv" None
    = Raise AttributeError
  ∧ get_qconfig ReFragment.re_match (od_of_list [("", VQConfig None)]) (KObj 7) "conv" None
    = Raise KeyError
  ∧ (∃ d, convert_dict_to_ordered_dict example_user_dict = Ok d
          ∧ get_qconfig ReFragment.re_match d (KObj 7) "conv" None
            = Ok (Some (QConfigObj 1))
          ∧ get_qconfig ReFragment.re_match d (KObj 7) "fc.weight" (Some (QConfigObj 0))
            = Ok None
          ∧ get_qconfig ReFragment.re_match d (KObj 7) "pool" (Some (QConfigObj 0))
            = Ok (Some (QConfigObj 3))).
Proof. split_and!; [by vm_compute..|]. eexists. by vm_compute. Qed.

(** C7, counterexample.  The three maps are there, and one pattern of the
    regex map does not compile: [re.match] raises [re.error], and so do
    [get_module_name_regex_qconfig] and [get_qconfig]. *)
Lemma get_qconfig_raises_on_unclosed_group :
  od_get "object_type" unclosed_group_qconfig_dict = Some (VODict example_object_type)
  ∧ od_get "module_name_regex" unclosed_group_qconfig_dict = Some (VODict unclosed_group_regex)
  ∧ od_get "module_name" unclosed_group_qconfig_dict = Some (VODict example_module_name)
  ∧ ReFragment.re_match "(conv" "features.0.conv" = Raise ReError
  ∧ get_module_name_regex_qconfig ReFragment.re_match unclosed_group_qconfig_dict
      "features.0.conv" None = Raise ReError
  ∧ get_qconfig ReFragment.re_match unclosed_group_qconfig_dict (KObj 7)
      "features.0.conv" None = Raise ReError.
Proof. by vm_compute. Qed.

Lemma resolvers_return_witness :
  (∃ q, get_object_type_qconfig example_qconfig_dict (KObj 7) None = Ok q)
  ∧ (∃ q, get_module_name_regex_qconfig ReFragment.re_match example_qconfig_dict
            "features.0.conv" None = Ok q)
  ∧ (∃ q, get_module_name_qconfig example_qconfig_dict "features.0.conv" None = Ok q)
  ∧ (∃ q, get_qconfig ReFragment.re_match example_qconfig_dict (KObj 7)
            "features.0.conv" (Some (QConfigObj 0)) = Ok q).
Proof.
  apply (resolvers_return ReFragment.re_match example_qconfig_dict
           example_object_type example_module_name_regex example_module_name
           (KObj 7) "features.0.conv" (Some (QConfigObj 0)) None);
    [reflexivity..|apply example_patterns_compile].
Defined.

(** ** Conversion of the sections to ordered dictionaries *)

Section conversion.
Implicit Types (d : pydict) (m : odict pykey QConfigAny).

Lemma convert_section key d pairs :
  listed_pairs (od_get key d) = Some pairs → NoDup pairs.*1 →
  ∃ m, _convert_to_ordered_dict key d = Ok (od_set key (VODict m) d)
       ∧ od_items m = pairs.
Proof.
  unfold _convert_to_ordered_dict.
  destruct (od_get key d) as [[q|listed|m]|]; cbn; intros [= <-] Hnd.
  - exists (od_of_list listed). by rewrite od_of_list_items.
  - by exists m.
  - by exists (od_of_list []).
Qed.

(** C8, as amended.  When each of the three sections is absent, a list of
    pairs or a map, and the keys listed in it are pairwise distinct,
    [convert_dict_to_ordered_dict] returns, and in the dictionary it returns
    each of the three keys holds an ordered map with exactly the pairs
    listed before, in their order (none when the key was absent); every
    other key holds what it held. *)
Theorem convert_dict_to_ordered_dict_sections d :
  (∀ key, key ∈ sections →
     ∃ pairs, listed_pairs (od_get key d) = Some pairs ∧ NoDup pairs.*1) →
  ∃ d', convert_dict_to_ordered_dict d = Ok d'
    ∧ (∀ key, key ∈ sections →
         ∃ m, od_get key d' = Some (VODict m)
              ∧ listed_pairs (od_get key d) = Some (od_items m))
    ∧ (∀ k, k ∉ sections → od_get k d' = od_get k d).
Proof.
  intros Hlisted. unfold convert_dict_to_ordered_dict.
  destruct (Hlisted "object_type") as (pairs1 & Hl1 & Hnd1); [set_solver|].
  destruct (Hlisted "module_name_regex") as (pairs2 & Hl2 & Hnd2); [set_solver|].
  destruct (Hlisted "module_name") as (pairs3 & Hl3 & Hnd3); [set_solver|].
  destruct (convert_section _ _ _ Hl1 Hnd1) as (m1 & -> & Hm1).
  cbn [mbind result_bind].
  destruct (convert_section "module_name_regex"
              (od_set "object_type" (VODict m1) d) pairs2) as (m2 & -> & Hm2);
    [by rewrite od_get_set, decide_False|done|].
  cbn [mbind result_bind].
  destruct (convert_section "module_name"
              (od_set "module_name_regex" (VODict m2)
                 (od_set "object_type" (VODict m1) d)) pairs3) as (m3 & -> & Hm3);
    [by rewrite !od_get_set, !decide_False|done|].
  eexists. split; [done|]. split.
  - intros key Hkey. unfold sections in Hkey.
    repeat (apply elem_of_cons in Hkey as [->|Hkey]); [..|by apply elem_of_nil in Hkey].
    + exists m1. rewrite !od_get_set. by rewrite Hl1, Hm1.
    + exists m2. rewrite !od_get_set. by rewrite Hl2, Hm2.
    + exists m3. rewrite !od_get_set. by rewrite Hl3, Hm3.
  - intros k Hk. rewrite !od_get_set.
    rewrite !decide_False; [done|intros ->; apply Hk; unfold sections; set_solver..].
Qed.
End conversion.

(** C8, counterexample.  A module listed twice: the pairs listed under
    'module_name' are two, the map made of them holds one, the later. *)
Lemma convert_dict_to_ordered_dict_repeated_key :
  ∃ d' m,
    convert_dict_to_ordered_dict repeated_name_dict = Ok d'
    ∧ od_get "module_name" d' = Some (VODict m)
    ∧ listed_pairs (od_get "module_name" repeated_name_dict)
      = Some [(KStr "conv", Some (QConfigObj 1)); (KStr "conv", Some (QConfigObj 2))]
    ∧ od_items m = [(KStr "conv", Some (QConfigObj 2))]
    ∧ listed_pairs (od_get "module_name" repeated_name_dict) ≠ Some (od_items m).
Proof. eexists _, _. split_and!; [reflexivity..|by vm_compute]. Qed.

Lemma convert_dict_to_ordered_dict_sections_witness :
  ∃ d', convert_dict_to_ordered_dict example_user_dict = Ok d'
    ∧ (∀ key, key ∈ sections →
         ∃ m, od_get key d' = Some (VODict m)
              ∧ listed_pairs (od_get key example_user_dict) = Some (od_items m))
    ∧ (∀ k, k ∉ sections → od_get k d' = od_get k example_user_dict).
Proof.
  apply (convert_dict_to_ordered_dict_sections example_user_dict).
  intros key Hkey. unfold sections in Hkey.
  repeat (apply elem_of_cons in Hkey as [->|Hkey]); [..|by apply elem_of_nil in Hkey];
    (eexists; split; [reflexivity|]); apply (bool_decide_unpack _); by vm_compute.
Defined.

(** ** The flattened dictionary *)

Section flattening.
Implicit Types (d : pydict) (m ot mn : odict pykey QConfigAny).
Implicit Types (flattened fl : gmap pykey pyvalue) (k : pykey).

Lemma flatten_pairs_lookup (pairs : list (pykey * QConfigAny)) fl k :
  NoDup pairs.*1 →
  foldl (λ fl oq, <[oq.1 := VQConfig oq.2]> fl) fl pairs !! k
  = match al_get k pairs with
    | Some q => Some (VQConfig q)
    | None => fl !! k
    end.
Proof.
  revert fl. induction pairs as [|[k0 q0] pairs IH]; intros fl; cbn; [done|].
  intros [Hk0 Hnd]%NoDup_cons. rewrite IH by done.
  case_decide as Hk; subst.
  - apply al_get_None in Hk0. by rewrite Hk0, lookup_insert_eq.
  - by rewrite lookup_insert_ne.
Qed.

Lemma flatten_key_lookup d key m fl :
  section_map (od_get key d) = Some m →
  ∃ fl', flatten_key d key fl = Ok fl'
         ∧ ∀ k, fl' !! k = match od_get k m with
                           | Some q => Some (VQConfig q)
                           | None => fl !! k
                           end.
Proof.
  unfold flatten_key.
  destruct (od_get key d) as [[q|listed|m']|]; cbn; intros [= <-].
  - eexists. split; [done|]. intros k. apply flatten_pairs_lookup, od_NoDup.
  - by eexists.
Qed.

(** Every lookup in the flattened dictionary. *)
Lemma get_flattened_qconfig_dict_lookup d ot mn :
  section_map (od_get "object_type" d) = Some ot →
  section_map (od_get "module_name" d) = Some mn →
  ∃ flattened, get_flattened_qconfig_dict d = Ok flattened
    ∧ ∀ k, flattened !! k
           = match od_get k mn, od_get k ot with
             | Some q, _ => Some (VQConfig q)
             | None, Some q => Some (VQConfig q)
             | None, None => if decide (k = KStr "") then od_get "" d else None
             end.
Proof.
  intros Hot Hmn. unfold get_flattened_qconfig_dict.
  destruct (flatten_key_lookup d "object_type" ot
    match od_get "" d with Some v => <[KStr "" := v]> ∅ | None => ∅ end Hot)
    as (fl1 & -> & Hfl1).
  cbn [mbind result_bind].
  destruct (flatten_key_lookup d "module_name" mn fl1 Hmn) as (fl2 & -> & Hfl2).
  eexists. split; [done|]. intros k. rewrite Hfl2, Hfl1.
  destruct (od_get k mn), (od_get k ot); try done.
  destruct (od_get "" d); case_decide; subst;
    by rewrite ?lookup_insert_eq, ?lookup_insert_ne, ?lookup_empty by done.
Qed.

(** The 'module_name_regex' entry plays no part. *)
Lemma get_flattened_qconfig_dict_ignores_regex d (v : pyvalue) :
  get_flattened_qconfig_dict (od_set "module_name_regex" v d)
  = get_flattened_qconfig_dict d.
Proof.
  unfold get_flattened_qconfig_dict, flatten_key.
  by rewrite !od_get_set, !decide_False.
Qed.

(** C9, as amended.  When the 'object_type' and 'module_name' entries, where
    present, are maps, [get_flattened_qconfig_dict] returns a dictionary
    that: holds under [''] what qconfig_dict holds under [''], and has no
    such key when qconfig_dict has none, provided neither section lists
    the key ['']; holds every pair of 'module_name'; holds every pair of
    'object_type' whose key 'module_name' does not list; holds nothing
    else; and is the same whatever stands under 'module_name_regex'. *)
Theorem get_flattened_qconfig_dict_contents d ot mn :
  section_map (od_get "object_type" d) = Some ot →
  section_map (od_get "module_name" d) = Some mn →
  ∃ flattened, get_flattened_qconfig_dict d = Ok flattened
    ∧ (od_get (KStr "") ot = None → od_get (KStr "") mn = None →
       flattened !! KStr "" = od_get "" d)
    ∧ (∀ k q, od_get k mn = Some q → flattened !! k = Some (VQConfig q))
    ∧ (∀ k q, od_get k ot = Some q → od_get k mn = None →
              flattened !! k = Some (VQConfig q))
    ∧ (∀ k v, flattened !! k = Some v →
              (k = KStr "" ∧ od_get "" d = Some v)
              ∨ ∃ q, v = VQConfig q ∧ (od_get k ot = Some q ∨ od_get k mn = Some q))
    ∧ (∀ v, get_flattened_qconfig_dict (od_set "module_name_regex" v d) = Ok flattened).
Proof.
  intros Hot Hmn.
  destruct (get_flattened_qconfig_dict_lookup d ot mn Hot Hmn) as (fl & Hfl & Hlookup).
  exists fl. split_and!; [done|..].
  - intros Hot0 Hmn0. by rewrite Hlookup, Hmn0, Hot0, decide_True.
  - intros k q Hk. by rewrite Hlookup, Hk.
  - intros k q Hk Hnone. by rewrite Hlookup, Hnone, Hk.
  - intros k v. rewrite Hlookup.
    destruct (od_get k mn) as [q|]; [|destruct (od_get k ot) as [q|]].
    + intros [= <-]. right. exists q. eauto.
    + intros [= <-]. right. exists q. eauto.
    + case_decide; [|done]. subst. by left.
  - intros v. by rewrite get_flattened_qconfig_dict_ignores_regex.
Qed.
End flattening.

(** C9, counterexample.  The 'module_name' section lists the empty string:
    qconfig_dict has a global qconfig under [''], and the flattened
    dictionary holds under [''] the qconfig of the section instead. *)
Lemma get_flattened_qconfig_dict_root_name :
  ∃ flattened,
    get_flattened_qconfig_dict root_name_dict = Ok flattened
    ∧ od_get "" root_name_dict = Some (VQConfig (Some (QConfigObj 0)))
    ∧ flattened !! KStr "" = Some (VQConfig (Some (QConfigObj 1)))
    ∧ flattened !! KStr "" ≠ od_get "" root_name_dict.
Proof. eexists. split_and!; [reflexivity..|by vm_compute]. Qed.

Lemma get_flattened_qconfig_dict_contents_witness :
  ∃ flattened, get_flattened_qconfig_dict example_qconfig_dict = Ok flattened
    ∧ (od_get (KStr "") example_object_type = None →
       od_get (KStr "") example_module_name = None →
       flattened !! KStr "" = od_get "" example_qconfig_dict)
    ∧ (∀ k q, od_get k example_module_name = Some q →
              flattened !! k = Some (VQConfig q))
    ∧ (∀ k q, od_get k example_object_type = Some q →
              od_get k example_module_name = None →
              flattened !! k = Some (VQConfig q))
    ∧ (∀ k v, flattened !! k = Some v →
              (k = KStr "" ∧ od_get "" example_qconfig_dict = Some v)
              ∨ ∃ q, v = VQConfig q
                     ∧ (od_get k example_object_type = Some q
                        ∨ od_get k example_module_name = Some q))
    ∧ (∀ v, get_flattened_qconfig_dict
              (od_set "module_name_regex" v example_qconfig_dict) = Ok flattened).
Proof.
  apply (get_flattened_qconfig_dict_contents example_qconfig_dict
           example_object_type example_module_name); reflexivity.
Defined.

(** * Further properties *)

(** ** Conversion, then validation, resolution and flattening *)

Section pipeline.
Implicit Types (d : pydict) (m : odict pykey QConfigAny).

Lemma al_set_same {K V : Type} `{EqDecision K} (k : K) (v : V) (l : list (K * V)) :
  al_get k l = Some v → al_set k v l = l.
Proof.
  induction l as [|[k0 v0] l IH]; cbn; [done|].
  case_decide; subst.
  - by intros [= ->].
  - intros Hget. by rewrite IH.
Qed.

Lemma od_set_same {K V : Type} `{EqDecision K} (k : K) (v : V) (m : odict K V) :
  od_get k m = Some v → od_set k v m = m.
Proof. intros Hget. apply od_eq. by apply al_set_same. Qed.

Lemma od_keys_set {K V : Type} `{EqDecision K} (k : K) (v : V) (m : odict K V) :
  od_keys (od_set k v m) = if decide (k ∈ od_keys m) then od_keys m else od_keys m ++ [k].
Proof. apply al_set_keys. Qed.

Lemma convert_section_inv key d d' :
  _convert_to_ordered_dict key d = Ok d' →
  ∃ m, OrderedDict (default (VList []) (od_get key d)) = Ok m
       ∧ d' = od_set key (VODict m) d.
Proof.
  unfold _convert_to_ordered_dict.
  destruct (OrderedDict _) as [m|]; cbn; [|done].
  intros [= <-]. by exists m.
Qed.

Lemma convert_inv d d' :
  convert_dict_to_ordered_dict d = Ok d' →
  ∃ m1 m2 m3,
    OrderedDict (default (VList []) (od_get "object_type" d)) = Ok m1
    ∧ OrderedDict (default (VList []) (od_get "module_name_regex" d)) = Ok m2
    ∧ OrderedDict (default (VList []) (od_get "module_name" d)) = Ok m3
    ∧ d' = od_set "module_name" (VODict m3)
             (od_set "module_name_regex" (VODict m2)
                (od_set "object_type" (VODict m1) d)).
Proof.
  unfold convert_dict_to_ordered_dict.
  destruct (_convert_to_ordered_dict "object_type" d) as [d1|] eqn:H1; [|done].
  cbn [mbind result_bind].
  destruct (_convert_to_ordered_dict "module_name_regex" d1) as [d2|] eqn:H2; [|done].
  cbn [mbind result_bind]. intros H3.
  apply convert_section_inv in H1 as (m1 & Hm1 & ->).
  apply convert_section_inv in H2 as (m2 & Hm2 & ->).
  apply convert_section_inv in H3 as (m3 & Hm3 & ->).
  rewrite !od_get_set in Hm3. rewrite od_get_set in Hm2.
  rewrite !decide_False in Hm3 by done. rewrite decide_False in Hm2 by done.
  by exists m1, m2, m3.
Qed.

(** After the conversion the three sections are maps. *)
Lemma convert_gives_maps d d' :
  convert_dict_to_ordered_dict d = Ok d' →
  ∃ ot re mn,
    od_get "object_type" d' = Some (VODict ot)
    ∧ od_get "module_name_regex" d' = Some (VODict re)
    ∧ od_get "module_name" d' = Some (VODict mn).
Proof.
  intros (m1 & m2 & m3 & _ & _ & _ & ->)%convert_inv.
  exists m1, m2, m3. by rewrite !od_get_set.
Qed.

Lemma convert_section_of_map key d m :
  od_get key d = Some (VODict m) → _convert_to_ordered_dict key d = Ok d.
Proof.
  intros Hget. unfold _convert_to_ordered_dict. rewrite Hget.
  change (Ok (od_set key (VODict m) d) = Ok d).
  by rewrite (od_set_same _ _ _ Hget).
Qed.

Lemma convert_of_maps d ot re mn :
  od_get "object_type" d = Some (VODict ot) →
  od_get "module_name_regex" d = Some (VODict re) →
  od_get "module_name" d = Some (VODict mn) →
  convert_dict_to_ordered_dict d = Ok d.
Proof.
  intros Hot Hre Hmn. unfold convert_dict_to_ordered_dict.
  rewrite (convert_section_of_map _ _ _ Hot). cbn [mbind result_bind].
  rewrite (convert_section_of_map _ _ _ Hre). cbn [mbind result_bind].
  by rewrite (convert_section_of_map _ _ _ Hmn).
Qed.

(** X1.  Converting twice is converting once: on the dictionary it
    returns, [convert_dict_to_ordered_dict] returns the same dictionary. *)
Theorem convert_dict_to_ordered_dict_idempotent d d' :
  convert_dict_to_ordered_dict d = Ok d' →
  convert_dict_to_ordered_dict d' = Ok d'.
Proof.
  intros (ot & re & mn & Hot & Hre & Hmn)%convert_gives_maps.
  by eapply convert_of_maps.
Qed.

Lemma convert_dict_to_ordered_dict_idempotent_witness :
  ∃ d', convert_dict_to_ordered_dict example_user_dict = Ok d'
        ∧ convert_dict_to_ordered_dict d' = Ok d'.
Proof.
  eexists. split; [reflexivity|].
  apply (convert_dict_to_ordered_dict_idempotent example_user_dict). reflexivity.
Defined.

Lemma convert_keys d d' :
  convert_dict_to_ordered_dict d = Ok d' →
  od_keys d' = od_keys d ++ filter (λ key, key ∉ od_keys d) sections.
Proof.
  intros (m1 & m2 & m3 & _ & _ & _ & ->)%convert_inv.
  rewrite !od_keys_set. unfold sections.
  rewrite !filter_cons, filter_nil.
  repeat case_decide;
    first [ by rewrite <-?app_assoc, ?app_nil_r
          | exfalso;
            repeat match goal with
              | H : _ ∈ _ ++ _ |- _ => apply elem_of_app in H as [H|H]
              | H : _ ∈ [_] |- _ => apply list_elem_of_singleton in H
              | H : ¬ (_ ∈ _ ++ _) |- _ =>
                  apply not_elem_of_app in H as [? ?]
              | H : ¬ ¬ _ |- _ => apply dec_stable in H
              end; done ].
Qed.

(** X2.  The conversion keeps the dictionary's iteration order and puts
    the sections that were missing behind it, in the order 'object_type',
    'module_name_regex', 'module_name'; so the converted dictionary passes
    [check_is_valid_qconfig_dict] exactly when the original does. *)
Theorem convert_dict_to_ordered_dict_keys d d' :
  convert_dict_to_ordered_dict d = Ok d' →
  od_keys d' = od_keys d ++ filter (λ key, key ∉ od_keys d) sections
  ∧ (check_is_valid_qconfig_dict d' = Ok () ↔ check_is_valid_qconfig_dict d = Ok ()).
Proof.
  intros Hconv. pose proof (convert_keys d d' Hconv) as Hkeys. split; [done|].
  unfold check_is_valid_qconfig_dict, check_is_valid_config_dict.
  rewrite !check_keys_Ok, Hkeys, Forall_app.
  split; [by intros [? _]|]. intros Hd. split; [done|].
  apply Forall_forall. intros key [_ Hkey]%list_elem_of_filter.
  unfold sections in Hkey. unfold qconfig_dict_allowed_keys.
  repeat (apply elem_of_cons in Hkey as [->|Hkey]); [..|by apply elem_of_nil in Hkey];
    rewrite !elem_of_union, !elem_of_singleton; tauto.
Qed.

Lemma convert_dict_to_ordered_dict_keys_witness :
  ∃ d', convert_dict_to_ordered_dict example_user_dict = Ok d'
        ∧ od_keys d' = [""; "module_name"; "object_type"; "module_name_regex"]
        ∧ (check_is_valid_qconfig_dict d' = Ok ()
           ↔ check_is_valid_qconfig_dict example_user_dict = Ok ()).
Proof.
  eexists. split; [reflexivity|].
  apply (convert_dict_to_ordered_dict_keys example_user_dict). reflexivity.
Defined.
End pipeline.

Section after_conversion.
Variable re_match : string → string → result bool.
Implicit Types (d : pydict) (m ot re mn : odict pykey QConfigAny) (fb : QConfigAny).

Lemma regex_loop_Raise (items : list (pykey * QConfigAny)) (module_name : string) fb e :
  regex_loop re_match items module_name fb = Raise e →
  ∃ p, p ∈ items.*1 ∧ py_re_match re_match p module_name = Raise e.
Proof.
  induction items as [|[p q] items IH]; cbn [regex_loop]; [done|].
  destruct (py_re_match re_match p module_name) as [[]|e'] eqn:Hp;
    cbn [mbind result_bind]; [done| |].
  - intros (p' & Hin & Hp')%IH. exists p'. split; [by right|done].
  - intros [= <-]. exists p. split; [left|done].
Qed.

(** X3.  On a converted dictionary [get_qconfig] raises nothing of its own:
    an exception it raises is one that [re.match] raises on a pattern of the
    'module_name_regex' section. *)
Theorem get_qconfig_after_convert_raises d d' (module_type : pykey)
    (module_name : string) (global_qconfig : QConfigAny) (e : pyexn) :
  convert_dict_to_ordered_dict d = Ok d' →
  get_qconfig re_match d' module_type module_name global_qconfig = Raise e →
  ∃ re p, od_get "module_name_regex" d' = Some (VODict re)
          ∧ p ∈ od_keys re
          ∧ py_re_match re_match p module_name = Raise e.
Proof.
  intros (ot & re & mn & Hot & Hre & Hmn)%convert_gives_maps.
  intros [Hraise|[(q1 & _ & Hraise)|(q1 & q2 & _ & _ & Hraise)]]%get_qconfig_raises.
  - by rewrite (get_object_type_qconfig_map _ _ _ _ Hot) in Hraise.
  - unfold get_module_name_regex_qconfig, getitem in Hraise. rewrite Hre in Hraise.
    apply regex_loop_Raise in Hraise as (p & Hp & Hraise). by exists re, p.
  - by rewrite (get_module_name_qconfig_scopes _ _ _ _ Hmn) in Hraise.
Qed.
End after_conversion.

Lemma get_qconfig_after_convert_raises_witness :
  ∃ re p,
    od_get "module_name_regex" unclosed_group_qconfig_dict = Some (VODict re)
    ∧ p ∈ od_keys re
    ∧ py_re_match ReFragment.re_match p "features.0.conv" = Raise ReError.
Proof.
  apply (get_qconfig_after_convert_raises ReFragment.re_match
           unclosed_group_qconfig_dict unclosed_group_qconfig_dict
           (KObj 7) "features.0.conv" None ReError);
    [by eapply convert_of_maps|reflexivity].
Defined.

Section unconverted.
Implicit Types (d : pydict) (fb : QConfigAny).

Lemma get_module_name_qconfig_no_map d fb module_name :
  (∀ name, name ≠ EmptyString →
     module_name_call d name fb = inr (_parent_name name).1) →
  get_module_name_qconfig d module_name fb = Ok fb.
Proof.
  intros Hcall.
  assert (∀ n name, String.length name ≤ n →
            get_module_name_qconfig d name fb = Ok fb) as Hall;
    [|by apply (Hall (String.length module_name))].
  induction n as [|n IH]; intros name Hlen;
    (destruct (decide (name = EmptyString)) as [->|Hne];
       [by rewrite get_module_name_qconfig_empty|]).
  - destruct name; [done|cbn in Hlen; lia].
  - rewrite get_module_name_qconfig_call, Hcall by done.
    apply IH. pose proof (parent_name_shorter name Hne). lia.
Qed.

(** X4.  The sections as the user writes them, before the conversion.  A
    'module_name' section that is still a list of pairs is silently passed
    over: [get_module_name_qconfig] returns the fallback for every module
    name, whatever the list holds.  The other two resolvers raise
    [AttributeError] on a list.  A missing section is a [KeyError], except
    that the empty module name gets the fallback before 'module_name' is
    ever read. *)
Theorem resolvers_before_conversion d (pairs : list (pykey * QConfigAny))
    (object_type : pykey) (module_name : string) fb
    (re_match : string → string → result bool) :
  (od_get "module_name" d = Some (VList pairs) →
   get_module_name_qconfig d module_name fb = Ok fb)
  ∧ (od_get "object_type" d = Some (VList pairs) →
     get_object_type_qconfig d object_type fb = Raise AttributeError)
  ∧ (od_get "module_name_regex" d = Some (VList pairs) →
     get_module_name_regex_qconfig re_match d module_name fb = Raise AttributeError)
  ∧ (od_get "module_name" d = None → module_name ≠ EmptyString →
     get_module_name_qconfig d module_name fb = Raise KeyError)
  ∧ (od_get "object_type" d = None →
     get_object_type_qconfig d object_type fb = Raise KeyError)
  ∧ (od_get "module_name_regex" d = None →
     get_module_name_regex_qconfig re_match d module_name fb = Raise KeyError)
  ∧ get_module_name_qconfig d EmptyString fb = Ok fb.
Proof.
  split_and!.
  - intros Hd. apply get_module_name_qconfig_no_map. intros name Hne.
    unfold module_name_call, getitem. by rewrite decide_False, Hd.
  - intros Hd. unfold get_object_type_qconfig, getitem. by rewrite Hd.
  - intros Hd. unfold get_module_name_regex_qconfig, getitem. by rewrite Hd.
  - intros Hd Hne. rewrite get_module_name_qconfig_call.
    unfold module_name_call, getitem. by rewrite decide_False, Hd.
  - intros Hd. unfold get_object_type_qconfig, getitem. by rewrite Hd.
  - intros Hd. unfold get_module_name_regex_qconfig, getitem. by rewrite Hd.
  - apply get_module_name_qconfig_empty.
Qed.
End unconverted.

Section last_pair_wins.
Context {K V : Type} `{EqDecision K}.
Implicit Types (l : list (K * V)) (m : odict K V).

Lemma al_get_app (k : K) l1 l2 :
  al_get k (l1 ++ l2) = match al_get k l1 with
                        | Some v => Some v
                        | None => al_get k l2
                        end.
Proof.
  induction l1 as [|[k0 v0] l1 IH]; cbn; [done|]. by case_decide.
Qed.

Lemma od_get_foldl_set (k : K) l m :
  od_get k (foldl (λ m kv, od_set kv.1 kv.2 m) m l)
  = match al_get k (reverse l) with
    | Some v => Some v
    | None => od_get k m
    end.
Proof.
  revert m. induction l as [|[k0 v0] l IH]; intros m; cbn [foldl]; [done|].
  rewrite IH, reverse_cons, al_get_app, od_get_set. cbn.
  destruct (al_get k (reverse l)); [done|]. by case_decide.
Qed.

(** Of the pairs with one key, the dictionary made of a list keeps the
    value of the last. *)
Lemma od_get_of_list (k : K) l : od_get k (od_of_list l) = al_get k (reverse l).
Proof.
  unfold od_of_list. rewrite od_get_foldl_set. by destruct (al_get k (reverse l)).
Qed.
End last_pair_wins.

Section conversion_of_lists.
Implicit Types (d : pydict) (m : odict pykey QConfigAny).

(** X5.  A section written as a list of pairs may list a key more than
    once.  After the conversion the section is a map in which every key has
    the qconfig of the last pair listed for it; a key that is not listed
    has no entry. *)
Theorem convert_dict_to_ordered_dict_last_pair_wins d d' (key : string)
    (pairs : list (pykey * QConfigAny)) :
  convert_dict_to_ordered_dict d = Ok d' →
  key ∈ sections →
  od_get key d = Some (VList pairs) →
  ∃ m, od_get key d' = Some (VODict m)
       ∧ ∀ k, od_get k m = al_get k (reverse pairs).
Proof.
  intros (m1 & m2 & m3 & Hm1 & Hm2 & Hm3 & ->)%convert_inv Hkey Hpairs.
  unfold sections in Hkey.
  repeat (apply elem_of_cons in Hkey as [->|Hkey]); [..|by apply elem_of_nil in Hkey].
  - rewrite Hpairs in Hm1. injection Hm1 as <-.
    eexists. rewrite !od_get_set. split; [done|]. intros k. apply od_get_of_list.
  - rewrite Hpairs in Hm2. injection Hm2 as <-.
    eexists. rewrite !od_get_set. split; [done|]. intros k. apply od_get_of_list.
  - rewrite Hpairs in Hm3. injection Hm3 as <-.
    eexists. rewrite !od_get_set. split; [done|]. intros k. apply od_get_of_list.
Qed.

Lemma convert_dict_to_ordered_dict_last_pair_wins_witness :
  ∃ m, (∃ d', convert_dict_to_ordered_dict repeated_name_dict = Ok d'
              ∧ od_get "module_name" d' = Some (VODict m))
       ∧ ∀ k, od_get k m
              = al_get k (reverse [(KStr "conv", Some (QConfigObj 1));
                                   (KStr "conv", Some (QConfigObj 2))]).
Proof.
  destruct (convert_dict_to_ordered_dict repeated_name_dict) as [d'|] eqn:Hconv;
    [|by vm_compute in Hconv].
  destruct (convert_dict_to_ordered_dict_last_pair_wins repeated_name_dict d'
              "module_name"
              [(KStr "conv", Some (QConfigObj 1)); (KStr "conv", Some (QConfigObj 2))]
              Hconv) as (m & Hm & Hlookup);
    [unfold sections; repeat constructor|reflexivity|].
  exists m. split; [by exists d'|done].
Defined.

(** X6.  On a converted dictionary [get_flattened_qconfig_dict] does not
    raise, and every lookup in its result is: the 'module_name' entry of the
    key; or else its 'object_type' entry; or else, for the empty string,
    what the dictionary held under it before the conversion; or else
    nothing. *)
Theorem get_flattened_qconfig_dict_after_convert d d' :
  convert_dict_to_ordered_dict d = Ok d' →
  ∃ flattened ot mn,
    od_get "object_type" d' = Some (VODict ot)
    ∧ od_get "module_name" d' = Some (VODict mn)
    ∧ get_flattened_qconfig_dict d' = Ok flattened
    ∧ ∀ k, flattened !! k
           = match od_get k mn, od_get k ot with
             | Some q, _ => Some (VQConfig q)
             | None, Some q => Some (VQConfig q)
             | None, None => if decide (k = KStr "") then od_get "" d else None
             end.
Proof.
  intros Hconv.
  destruct (convert_gives_maps _ _ Hconv) as (ot & re & mn & Hot & Hre & Hmn).
  destruct (get_flattened_qconfig_dict_lookup d' ot mn) as (fl & Hfl & Hlookup);
    [by rewrite Hot|by rewrite Hmn|].
  exists fl, ot, mn. split_and!; [done..|].
  intros k. rewrite Hlookup.
  apply convert_inv in Hconv as (m1 & m2 & m3 & _ & _ & _ & ->).
  by rewrite !od_get_set.
Qed.

Lemma get_flattened_qconfig_dict_after_convert_witness :
  ∃ d' flattened ot mn,
    convert_dict_to_ordered_dict example_user_dict = Ok d'
    ∧ od_get "object_type" d' = Some (VODict ot)
    ∧ od_get "module_name" d' = Some (VODict mn)
    ∧ get_flattened_qconfig_dict d' = Ok flattened
    ∧ ∀ k, flattened !! k
           = match od_get k mn, od_get k ot with
             | Some q, _ => Some (VQConfig q)
             | None, Some q => Some (VQConfig q)
             | None, None =>
                 if decide (k = KStr "") then od_get "" example_user_dict else None
             end.
Proof.
  destruct (convert_dict_to_ordered_dict example_user_dict) as [d'|] eqn:Hconv;
    [|by vm_compute in Hconv].
  destruct (get_flattened_qconfig_dict_after_convert example_user_dict d' Hconv)
    as (fl & ot & mn & H).
  by exists d', fl, ot, mn.
Defined.

(** The docstring's example, once converted: the global qconfig, the
    function's and the module's, under their own keys. *)
Example get_flattened_qconfig_dict_docstring :
  ∃ d' flattened,
    convert_dict_to_ordered_dict example_user_dict = Ok d'
    ∧ get_flattened_qconfig_dict d' = Ok flattened
    ∧ flattened !! KStr "" = Some (VQConfig (Some (QConfigObj 0)))
    ∧ flattened !! KObj 7 = Some (VQConfig (Some (QConfigObj 3)))
    ∧ flattened !! KStr "conv" = Some (VQConfig (Some (QConfigObj 1)))
    ∧ flattened !! KStr "fc" = Some (VQConfig None)
    ∧ flattened !! KStr "module_name" = None
    ∧ get_flattened_qconfig_dict example_user_dict = Raise AttributeError.
Proof.
  let r := eval vm_compute in (convert_dict_to_ordered_dict example_user_dict) in
  lazymatch r with
  | Ok ?d' =>
      let r' := eval vm_compute in (get_flattened_qconfig_dict d') in
      lazymatch r' with Ok ?flattened => exists d', flattened end
  end.
  split_and!; vm_compute; reflexivity.
Qed.
End conversion_of_lists.

(** ** The custom configuration dictionaries *)

Section custom_config_checks.
Context {V : Type}.
Implicit Types (config_dict : option (odict string V)).

Lemma guarded_check_spec (check : option (odict string V) → result unit)
    (allowed_keys : gset string) (dict_name : string) :
  (∀ config_dict,
     check config_dict
     = if py_not config_dict then Ok ()
       else match config_dict with
            | Some d => check_config_keys d allowed_keys dict_name
            | None => Ok ()
            end) →
  checks_keys_against check allowed_keys dict_name.
Proof.
  intros Hcheck config_dict. rewrite Hcheck. clear Hcheck.
  destruct config_dict as [d|]; cbn [py_not]; [|split; [split|]; done].
  unfold check_config_keys, check_is_valid_config_dict, od_keys.
  destruct (od_items d) as [|kv items] eqn:Hitems.
  - split; [|done]. split; [|done]. intros _ d' [= <-] k.
    unfold od_keys. rewrite Hitems. by intros ?%elem_of_nil.
  - split.
    + rewrite check_keys_Ok, Forall_forall. split.
      * intros Hall d' [= <-] k. unfold od_keys. rewrite Hitems. apply Hall.
      * intros Hall k Hk. apply (Hall d eq_refl). unfold od_keys. by rewrite Hitems.
    + intros e (accepted & k & rest & Hkeys & Hacc & Hk & ->)%check_keys_Raise.
      exists d, accepted, k, rest. unfold od_keys. by rewrite Hitems.
Qed.

(** X7.  Each of the three checks of a custom configuration dictionary
    accepts [None] and every dictionary all of whose keys are in its own
    allowed set, the empty dictionary among them, and rejects any other with
    a [ValueError] that carries its own dictionary name, the allowed set and
    the first key that is not allowed. *)
Theorem custom_config_dict_checks :
  checks_keys_against (V:=V) check_is_valid_prepare_custom_config_dict
    prepare_custom_config_dict_allowed_keys "prepare_custom_config_dict"
  ∧ checks_keys_against (V:=V) check_is_valid_convert_custom_config_dict
      convert_custom_config_dict_allowed_keys "convert_custom_config_dict"
  ∧ checks_keys_against (V:=V) check_is_valid_fuse_custom_config_dict
      fuse_custom_config_dict_allowed_keys "fuse_custom_config_dict".
Proof. split_and!; by apply guarded_check_spec. Qed.
End custom_config_checks.

Section custom_config_relations.
Context {V : Type}.
Implicit Types (config_dict : option (odict string V)) (d : odict string V).

Lemma fuse_keys_are_prepare_keys k :
  k ∈ fuse_custom_config_dict_allowed_keys → k ∈ prepare_custom_config_dict_allowed_keys.
Proof.
  unfold fuse_custom_config_dict_allowed_keys, prepare_custom_config_dict_allowed_keys.
  rewrite !elem_of_union, !elem_of_singleton. tauto.
Qed.

Lemma prepare_and_convert_keys k :
  k ∈ prepare_custom_config_dict_allowed_keys →
  k ∈ convert_custom_config_dict_allowed_keys →
  k = "preserved_attributes".
Proof.
  unfold convert_custom_config_dict_allowed_keys, prepare_custom_config_dict_allowed_keys.
  rewrite !elem_of_union, !elem_of_singleton.
  intros Hp [[->| ->]| ->]; [exfalso..|done];
    repeat destruct Hp as [Hp|Hp]; discriminate Hp.
Qed.

Lemma prepare_check_accepts config_dict :
  check_is_valid_prepare_custom_config_dict config_dict = Ok () ↔
  ∀ d, config_dict = Some d →
       ∀ k, k ∈ od_keys d → k ∈ prepare_custom_config_dict_allowed_keys.
Proof.
  by apply (guarded_check_spec check_is_valid_prepare_custom_config_dict
              prepare_custom_config_dict_allowed_keys "prepare_custom_config_dict").
Qed.

Lemma convert_check_accepts config_dict :
  check_is_valid_convert_custom_config_dict config_dict = Ok () ↔
  ∀ d, config_dict = Some d →
       ∀ k, k ∈ od_keys d → k ∈ convert_custom_config_dict_allowed_keys.
Proof.
  by apply (guarded_check_spec check_is_valid_convert_custom_config_dict
              convert_custom_config_dict_allowed_keys "convert_custom_config_dict").
Qed.

Lemma fuse_check_accepts config_dict :
  check_is_valid_fuse_custom_config_dict config_dict = Ok () ↔
  ∀ d, config_dict = Some d →
       ∀ k, k ∈ od_keys d → k ∈ fuse_custom_config_dict_allowed_keys.
Proof.
  by apply (guarded_check_spec check_is_valid_fuse_custom_config_dict
              fuse_custom_config_dict_allowed_keys "fuse_custom_config_dict").
Qed.

(** X8.  A dictionary that passes the check for [fuse_fx] passes the check
    for [prepare] as well: both of the keys the first allows are among those
    the second allows. *)
Theorem fuse_custom_config_dict_valid_for_prepare config_dict :
  check_is_valid_fuse_custom_config_dict config_dict = Ok () →
  check_is_valid_prepare_custom_config_dict config_dict = Ok ().
Proof.
  rewrite fuse_check_accepts, prepare_check_accepts.
  intros Hfuse d Hd k Hk. by eapply fuse_keys_are_prepare_keys, Hfuse.
Qed.

(** X9.  One dictionary passes both the check for [prepare] and the check
    for [convert] only when it has no key but 'preserved_attributes', the
    one key the two allowed sets share; and with no other key it passes
    both. *)
Theorem prepare_and_convert_custom_config_dict d :
  check_is_valid_prepare_custom_config_dict (Some d) = Ok ()
  ∧ check_is_valid_convert_custom_config_dict (Some d) = Ok ()
  ↔ ∀ k, k ∈ od_keys d → k = "preserved_attributes".
Proof.
  rewrite prepare_check_accepts, convert_check_accepts. split.
  - intros [Hp Hc] k Hk. apply prepare_and_convert_keys; eauto.
  - intros Hkeys. split; intros d' [= <-] k ->%Hkeys;
      apply (bool_decide_unpack _); by vm_compute.
Qed.
End custom_config_relations.

Lemma fuse_custom_config_dict_valid_for_prepare_witness :
  check_is_valid_prepare_custom_config_dict
    (Some (od_of_list [("preserved_attributes", 1); ("additional_fuser_method_mapping", 2)]))
  = Ok ().
Proof.
  apply (fuse_custom_config_dict_valid_for_prepare
           (Some (od_of_list [("preserved_attributes", 1);
                              ("additional_fuser_method_mapping", 2)]))).
  reflexivity.
Defined.

(** The key of [prepare] for the QAT module mapping is spelt with two
    underscores; the spelling with one is rejected, and no key of a
    qconfig_dict is a key of a custom configuration dictionary. *)
Example check_is_valid_custom_config_dict_examples :
  check_is_valid_prepare_custom_config_dict
    (Some (od_of_list [("additional_qat__module_mapping", 0)])) = Ok ()
  ∧ check_is_valid_prepare_custom_config_dict
      (Some (od_of_list [("input_quantized_idxs", 0); ("additional_qat_module_mapping", 1)]))
    = Raise (ValueError
        ("Expected prepare_custom_config_dict to have the following keys: " +:+
         py_str_set prepare_custom_config_dict_allowed_keys +:+
         ". But found 'additional_qat_module_mapping' instead."))
  ∧ check_is_valid_convert_custom_config_dict (V:=nat) None = Ok ()
  ∧ check_is_valid_fuse_custom_config_dict (V:=nat) (Some od_empty) = Ok ()
  ∧ (∃ e, check_is_valid_fuse_custom_config_dict
            (Some (od_of_list [("object_type", 0)])) = Raise e).
Proof. split_and!; [by vm_compute..|]. eexists. by vm_compute. Qed.

(** ** The qconfig of every node *)

Section qconfig_map_facts.
Variable re_match : string → string → result bool.
Variable type_of : nat → nat.
Variable modules : odict string nat.
Variable qconfig_dict : pydict.
Variable node_name_to_scope : odict string (string * pykey).
Variable global_qconfig : QConfigAny.
Implicit Types (n : node) (nodes : list node) (attrs : gmap nat QConfigAny).
Implicit Types (qconfig_map : gmap string QConfigAny) (q : QConfigAny).

Local Abbreviation step := (node_step re_match type_of modules qconfig_dict
                          node_name_to_scope global_qconfig).
Local Abbreviation loop := (qconfig_map_loop re_match type_of modules qconfig_dict
                          node_name_to_scope global_qconfig).

(** What a step does to the attributes does not depend on them, and its
    qconfig and its exception do not either. *)
Lemma node_step_attrs attrs n :
  step attrs n
  = match step ∅ n with
    | Ok (q, _) =>
        Ok (q, match module_set_by modules n with
               | Some m => <[m := q]> attrs
               | None => attrs
               end)
    | Raise e => Raise e
    end.
Proof.
  unfold node_step, module_set_by.
  repeat case_decide; try congruence.
  - destruct (node_target n); cbn [mbind result_bind]; [|done].
    destruct (od_index modules _); cbn [mbind result_bind]; [|done].
    by destruct (get_qconfig _ _ _ _ _).
  - destruct (get_object_type_qconfig _ _ _); cbn [mbind result_bind]; [|done].
    destruct (od_index node_name_to_scope _); cbn [mbind result_bind]; [|done].
    by destruct (get_qconfig _ _ _ _ _).
  - destruct (od_index node_name_to_scope _); cbn [mbind result_bind]; [|done].
    by destruct (get_qconfig _ _ _ _ _).
  - destruct (node_target n) as [target|]; [|done].
    unfold od_index. destruct (od_get target modules) as [m|]; [|done].
    cbn [mbind result_bind].
    by destruct (get_qconfig _ _ _ _ _).
  - done.
Qed.

Lemma loop_app pre post attrs qconfig_map :
  loop (pre ++ post) attrs qconfig_map
  = match loop pre attrs qconfig_map with
    | Ok (qconfig_map1, attrs1) => loop post attrs1 qconfig_map1
    | Raise e => Raise e
    end.
Proof.
  revert attrs qconfig_map.
  induction pre as [|n pre IH]; intros attrs qconfig_map; cbn [app qconfig_map_loop].
  - done.
  - destruct (step attrs n) as [[q attrs1]|]; cbn [mbind result_bind]; [|done].
    apply IH.
Qed.

Lemma loop_cons_inv n nodes attrs qconfig_map qconfig_map' attrs' :
  loop (n :: nodes) attrs qconfig_map = Ok (qconfig_map', attrs') →
  ∃ q attrs1,
    step attrs n = Ok (q, attrs1)
    ∧ loop nodes attrs1 (<[node_name n := q]> qconfig_map) = Ok (qconfig_map', attrs').
Proof.
  cbn [qconfig_map_loop].
  destruct (step attrs n) as [[q attrs1]|]; cbn [mbind result_bind]; [|done].
  intros Hloop. by exists q, attrs1.
Qed.

Lemma loop_lookup_other nodes attrs qconfig_map qconfig_map' attrs' (name : string) :
  loop nodes attrs qconfig_map = Ok (qconfig_map', attrs') →
  name ∉ node_name <$> nodes →
  qconfig_map' !! name = qconfig_map !! name.
Proof.
  revert attrs qconfig_map.
  induction nodes as [|n nodes IH]; intros attrs qconfig_map.
  - by intros [= <- <-].
  - intros (q & attrs1 & _ & Hloop)%loop_cons_inv [Hne Hname]%not_elem_of_cons.
    rewrite (IH _ _ Hloop Hname). by rewrite lookup_insert_ne.
Qed.

Lemma loop_lookup_names nodes attrs qconfig_map qconfig_map' attrs' (name : string) :
  loop nodes attrs qconfig_map = Ok (qconfig_map', attrs') →
  is_Some (qconfig_map' !! name) ↔
  name ∈ node_name <$> nodes ∨ is_Some (qconfig_map !! name).
Proof.
  revert attrs qconfig_map.
  induction nodes as [|n nodes IH]; intros attrs qconfig_map.
  - intros [= <- <-]. rewrite fmap_nil, elem_of_nil. tauto.
  - intros (q & attrs1 & _ & Hloop)%loop_cons_inv.
    rewrite (IH _ _ Hloop), fmap_cons, elem_of_cons.
    destruct (decide (name = node_name n)) as [->|Hne].
    + rewrite lookup_insert_eq. split; [by left; left|]. intros _. right. by eexists.
    + rewrite lookup_insert_ne by done. tauto.
Qed.

Lemma loop_last pre n post attrs qconfig_map qconfig_map' attrs' :
  loop (pre ++ n :: post) attrs qconfig_map = Ok (qconfig_map', attrs') →
  node_name n ∉ node_name <$> post →
  ∃ q attrs0, step ∅ n = Ok (q, attrs0) ∧ qconfig_map' !! node_name n = Some q.
Proof.
  rewrite loop_app.
  destruct (loop pre attrs qconfig_map) as [[qconfig_map1 attrs1]|]; [|done].
  intros (q & attrs2 & Hstep & Hloop)%loop_cons_inv Hname.
  rewrite node_step_attrs in Hstep.
  destruct (step ∅ n) as [[q0 attrs0]|]; [|done]. injection Hstep as <- <-.
  exists q0, attrs0. split; [done|].
  by rewrite (loop_lookup_other _ _ _ _ _ _ Hloop Hname), lookup_insert_eq.
Qed.

Lemma loop_attrs_other nodes attrs qconfig_map qconfig_map' attrs' (m : nat) :
  loop nodes attrs qconfig_map = Ok (qconfig_map', attrs') →
  (∀ n, n ∈ nodes → module_set_by modules n ≠ Some m) →
  attrs' !! m = attrs !! m.
Proof.
  revert attrs qconfig_map.
  induction nodes as [|n nodes IH]; intros attrs qconfig_map.
  - by intros [= <- <-].
  - intros (q & attrs1 & Hstep & Hloop)%loop_cons_inv Hnot.
    rewrite (IH _ _ Hloop) by (intros n' Hn'; apply Hnot; by right).
    rewrite node_step_attrs in Hstep.
    destruct (step ∅ n) as [[q0 attrs0]|]; [|done]. injection Hstep as <- <-.
    destruct (module_set_by modules n) as [m'|] eqn:Hset; [|done].
    rewrite lookup_insert_ne; [done|]. intros ->. apply (Hnot n); [left|done].
Qed.

Lemma loop_attrs_last pre n post attrs qconfig_map qconfig_map' attrs' (m : nat) :
  loop (pre ++ n :: post) attrs qconfig_map = Ok (qconfig_map', attrs') →
  module_set_by modules n = Some m →
  (∀ n', n' ∈ post → module_set_by modules n' ≠ Some m) →
  ∃ q attrs0, step ∅ n = Ok (q, attrs0) ∧ attrs' !! m = Some q.
Proof.
  rewrite loop_app.
  destruct (loop pre attrs qconfig_map) as [[qconfig_map1 attrs1]|]; [|done].
  intros (q & attrs2 & Hstep & Hloop)%loop_cons_inv Hset Hpost.
  rewrite node_step_attrs, Hset in Hstep.
  destruct (step ∅ n) as [[q0 attrs0]|]; [|done]. injection Hstep as <- <-.
  exists q0, attrs0. split; [done|].
  by rewrite (loop_attrs_other _ _ _ _ _ _ Hloop Hpost), lookup_insert_eq.
Qed.

Lemma loop_raises pre n post attrs qconfig_map e :
  (∀ n', n' ∈ pre → ∃ q attrs0, step ∅ n' = Ok (q, attrs0)) →
  step ∅ n = Raise e →
  loop (pre ++ n :: post) attrs qconfig_map = Raise e.
Proof.
  revert attrs qconfig_map.
  induction pre as [|n' pre IH]; intros attrs qconfig_map Hpre Hn;
    cbn [app qconfig_map_loop]; rewrite node_step_attrs.
  - by rewrite Hn.
  - destruct (Hpre n') as (q & attrs0 & ->); [left|]. cbn [mbind result_bind].
    apply IH; [|done]. intros n'' Hn''. apply Hpre. by right.
Qed.
End qconfig_map_facts.

Section generate_qconfig_map_facts.
Variable re_match : string → string → result bool.
Variable type_of : nat → nat.
Implicit Types (modules : odict string nat) (graph : list node) (d : pydict).
Implicit Types (scope : odict string (string * pykey)) (attrs : gmap nat QConfigAny).
Implicit Types (qconfig_map : gmap string QConfigAny) (g q : QConfigAny) (n : node).

Lemma generate_qconfig_map_inv attrs modules graph d scope r :
  generate_qconfig_map re_match type_of attrs modules graph d scope = Some r →
  ∃ g, global_qconfig_of d = Some g
       ∧ qconfig_map_loop re_match type_of modules d scope g graph attrs ∅ = r.
Proof.
  unfold generate_qconfig_map.
  destruct (global_qconfig_of d) as [g|]; [|done].
  intros [= <-]. by exists g.
Qed.

(** X10.  When [generate_qconfig_map] returns, the map has an entry for
    the name of every node of the graph and for nothing else; under the name
    of a node it holds the qconfig the loop body computes for that node, or
    for the last node of that name should several nodes share it; and a node
    whose [op] is none of 'get_attr', 'call_function', 'call_method' and
    'call_module' (a placeholder, the output) has the entry [None]. *)
Theorem generate_qconfig_map_entries attrs modules graph d scope qconfig_map attrs' :
  generate_qconfig_map re_match type_of attrs modules graph d scope
    = Some (Ok (qconfig_map, attrs')) →
  (∀ name, is_Some (qconfig_map !! name) ↔ name ∈ node_name <$> graph)
  ∧ (∀ pre n post,
       graph = pre ++ n :: post → node_name n ∉ node_name <$> post →
       ∃ g q attrs0,
         global_qconfig_of d = Some g
         ∧ node_step re_match type_of modules d scope g ∅ n = Ok (q, attrs0)
         ∧ qconfig_map !! node_name n = Some q)
  ∧ (∀ pre n post,
       graph = pre ++ n :: post → node_name n ∉ node_name <$> post →
       node_op n ∉ ["get_attr"; "call_function"; "call_method"; "call_module"] →
       qconfig_map !! node_name n = Some None).
Proof.
  intros (g & Hg & Hloop)%generate_qconfig_map_inv. split_and!.
  - intros name. rewrite (loop_lookup_names _ _ _ _ _ _ _ _ _ _ _ _ Hloop).
    rewrite lookup_empty. split; [|by left]. intros [?|[? ?]]; done.
  - intros pre n post -> Hname.
    destruct (loop_last _ _ _ _ _ _ _ _ _ _ _ _ _ Hloop Hname) as (q & attrs0 & Hstep & Hq).
    by exists g, q, attrs0.
  - intros pre n post -> Hname Hop.
    destruct (loop_last _ _ _ _ _ _ _ _ _ _ _ _ _ Hloop Hname) as (q & attrs0 & Hstep & Hq).
    enough (q = None) as <- by done. unfold node_step in Hstep.
    rewrite !decide_False in Hstep
      by (intros Heq; apply Hop; rewrite Heq, !elem_of_cons; tauto).
    by injection Hstep as <- _.
Qed.

(** X11.  Beside the map, [generate_qconfig_map] sets the [qconfig]
    attribute of module objects.  When it returns, a module object that is
    the target of no 'call_module' node has the attribute it had; the
    target of a 'call_module' node has the qconfig of the last such node
    that targets it, which is the map's entry for that node when no later
    node bears its name. *)
Theorem generate_qconfig_map_module_attributes attrs modules graph d scope
    qconfig_map attrs' :
  generate_qconfig_map re_match type_of attrs modules graph d scope
    = Some (Ok (qconfig_map, attrs')) →
  (∀ m, (∀ n, n ∈ graph → module_set_by modules n ≠ Some m) →
        attrs' !! m = attrs !! m)
  ∧ (∀ pre n post m,
       graph = pre ++ n :: post →
       module_set_by modules n = Some m →
       (∀ n', n' ∈ post → module_set_by modules n' ≠ Some m) →
       (∃ g q attrs0,
          global_qconfig_of d = Some g
          ∧ node_step re_match type_of modules d scope g ∅ n = Ok (q, attrs0)
          ∧ attrs' !! m = Some q)
       ∧ (node_name n ∉ node_name <$> post →
          attrs' !! m = qconfig_map !! node_name n)).
Proof.
  intros (g & Hg & Hloop)%generate_qconfig_map_inv. split.
  - intros m Hm. by eapply loop_attrs_other.
  - intros pre n post m -> Hset Hpost.
    destruct (loop_attrs_last _ _ _ _ _ _ _ _ _ _ _ _ _ _ Hloop Hset Hpost)
      as (q & attrs0 & Hstep & Hq).
    split; [by exists g, q, attrs0|]. intros Hname.
    destruct (loop_last _ _ _ _ _ _ _ _ _ _ _ _ _ Hloop Hname)
      as (q' & attrs0' & Hstep' & Hq').
    rewrite Hq, Hq'. congruence.
Qed.

(** X12.  A 'call_function' node is resolved with the function's own
    'object_type' entry as the last resort before the global qconfig: with
    maps under the three section keys and [re.match] raising on no pattern,
    its qconfig is the 'module_name' entry of the nearest scope of the
    enclosing module's path; or else the first 'module_name_regex' entry
    that matches the path; or else the 'object_type' entry of the enclosing
    module's type; or else the 'object_type' entry of the function; or
    else the global qconfig. *)
Theorem call_function_precedence modules d scope g attrs n ot re mn
    (module_path : string) (module_type : pykey) :
  od_get "object_type" d = Some (VODict ot) →
  od_get "module_name_regex" d = Some (VODict re) →
  od_get "module_name" d = Some (VODict mn) →
  (∀ p, p ∈ od_keys re → ∃ b, py_re_match re_match p module_path = Ok b) →
  node_op n = "call_function" →
  od_get (node_name n) scope = Some (module_path, module_type) →
  node_step re_match type_of modules d scope g attrs n
  = Ok (match first_entry mn (scopes module_path) with
        | Some q => q
        | None =>
            match first_regex_match re_match (od_items re) module_path with
            | Some q => q
            | None =>
                match od_get module_type ot with
                | Some q => q
                | None =>
                    match od_get (node_target n) ot with
                    | Some q => q
                    | None => g
                    end
                end
            end
        end, attrs).
Proof.
  intros Hot Hre Hmn Hvalid Hop Hscope. unfold node_step.
  rewrite decide_False by (rewrite Hop; done).
  rewrite decide_True by done.
  rewrite (get_object_type_qconfig_map _ _ _ _ Hot). cbn [mbind result_bind].
  unfold od_index. rewrite Hscope. cbn [mbind result_bind fst snd].
  rewrite (get_qconfig_resolved re_match d ot re mn) by done.
  cbn [mbind result_bind mret result_ret].
  unfold nearest_scope_precedence, by_precedence.
  by repeat case_match.
Qed.

Lemma unknown_reference_raises modules d scope g n :
  (node_op n = "call_module" ∧ ∀ t, node_target n = KStr t → od_get t modules = None)
  ∨ (node_op n = "get_attr"
     ∧ ∃ t, node_target n = KStr t ∧ od_get (_parent_name t).1 modules = None)
  ∨ (node_op n = "call_method" ∧ od_get (node_name n) scope = None)
  ∨ (node_op n = "call_function" ∧ od_get (node_name n) scope = None
     ∧ ∃ ot, od_get "object_type" d = Some (VODict ot)) →
  node_step re_match type_of modules d scope g ∅ n = Raise KeyError.
Proof.
  unfold node_step, od_index.
  intros [[Hop Ht]|[(Hop & t & Ht & Hm)|[[Hop Hs]|(Hop & Hs & ot & Hot)]]];
    rewrite Hop; repeat (rewrite decide_False by done); rewrite decide_True by done.
  - destruct (node_target n) as [t|]; [|done]. by rewrite (Ht t eq_refl).
  - rewrite Ht. cbn [mbind result_bind]. by rewrite Hm.
  - by rewrite Hs.
  - rewrite (get_object_type_qconfig_map _ _ _ _ Hot). cbn [mbind result_bind].
    by rewrite Hs.
Qed.

(** X13.  The loop stops at the first node that cannot be resolved.  When
    the nodes before it get their qconfig, a node that refers to something
    unknown makes [generate_qconfig_map] raise [KeyError], whatever nodes
    follow: a 'call_module' node whose target is no key of [modules], a
    'get_attr' node whose attribute belongs to a module that is no key of
    [modules], a 'call_method' node, or a 'call_function' node (the
    'object_type' section being a map), whose name is no key of
    [node_name_to_scope]. *)
Theorem generate_qconfig_map_unknown_reference attrs modules d scope g pre n post :
  global_qconfig_of d = Some g →
  (∀ n', n' ∈ pre →
     ∃ q attrs0, node_step re_match type_of modules d scope g ∅ n' = Ok (q, attrs0)) →
  (node_op n = "call_module" ∧ ∀ t, node_target n = KStr t → od_get t modules = None)
  ∨ (node_op n = "get_attr"
     ∧ ∃ t, node_target n = KStr t ∧ od_get (_parent_name t).1 modules = None)
  ∨ (node_op n = "call_method" ∧ od_get (node_name n) scope = None)
  ∨ (node_op n = "call_function" ∧ od_get (node_name n) scope = None
     ∧ ∃ ot, od_get "object_type" d = Some (VODict ot)) →
  generate_qconfig_map re_match type_of attrs modules (pre ++ n :: post) d scope
  = Some (Raise KeyError).
Proof.
  intros Hg Hpre Hn. unfold generate_qconfig_map. rewrite Hg. cbn. f_equal.
  apply loop_raises; [done|]. by apply unknown_reference_raises.
Qed.
End generate_qconfig_map_facts.

(** *** The example graph *)

(** The qconfig of every node of the example graph, and the attributes the
    two 'call_module' nodes set. *)
Example generate_qconfig_map_on_example :
  ∃ qconfig_map attrs',
    generate_qconfig_map ReFragment.re_match example_type_of ∅ example_modules
      example_graph example_qconfig_dict example_scope
    = Some (Ok (qconfig_map, attrs'))
    ∧ qconfig_map !! "x" = Some None
    ∧ qconfig_map !! "features_0_conv" = Some (Some (QConfigObj 5))
    ∧ qconfig_map !! "add" = Some (Some (QConfigObj 3))
    ∧ qconfig_map !! "relu_1" = Some (Some (QConfigObj 1))
    ∧ qconfig_map !! "classifier_weight" = Some (Some (QConfigObj 0))
    ∧ qconfig_map !! "a" = Some (Some (QConfigObj 1))
    ∧ qconfig_map !! "output" = Some None
    ∧ qconfig_map !! "features.0.conv" = None
    ∧ attrs' !! 1 = Some (Some (QConfigObj 5))
    ∧ attrs' !! 2 = None
    ∧ attrs' !! 3 = Some (Some (QConfigObj 1)).
Proof.
  let r := eval vm_compute in
    (generate_qconfig_map ReFragment.re_match example_type_of ∅ example_modules
       example_graph example_qconfig_dict example_scope) in
  lazymatch r with Some (Ok (?qconfig_map, ?attrs')) => exists qconfig_map, attrs' end.
  split_and!; vm_compute; reflexivity.
Qed.

Lemma generate_qconfig_map_entries_witness :
  ∃ qconfig_map attrs',
    generate_qconfig_map ReFragment.re_match example_type_of ∅ example_modules
      example_graph example_qconfig_dict example_scope
    = Some (Ok (qconfig_map, attrs'))
    ∧ (∀ name, is_Some (qconfig_map !! name) ↔ name ∈ node_name <$> example_graph)
    ∧ (∀ pre n post,
         example_graph = pre ++ n :: post → node_name n ∉ node_name <$> post →
         ∃ g q attrs0,
           global_qconfig_of example_qconfig_dict = Some g
           ∧ node_step ReFragment.re_match example_type_of example_modules
               example_qconfig_dict example_scope g ∅ n = Ok (q, attrs0)
           ∧ qconfig_map !! node_name n = Some q)
    ∧ (∀ pre n post,
         example_graph = pre ++ n :: post → node_name n ∉ node_name <$> post →
         node_op n ∉ ["get_attr"; "call_function"; "call_method"; "call_module"] →
         qconfig_map !! node_name n = Some None).
Proof.
  let r := eval vm_compute in
    (generate_qconfig_map ReFragment.re_match example_type_of ∅ example_modules
       example_graph example_qconfig_dict example_scope) in
  lazymatch r with
  | Some (Ok (?qconfig_map, ?attrs')) =>
      assert (generate_qconfig_map ReFragment.re_match example_type_of ∅
                example_modules example_graph example_qconfig_dict example_scope
              = Some (Ok (qconfig_map, attrs'))) as Hgen
        by (vm_compute; reflexivity);
      exists qconfig_map, attrs'; split; [exact Hgen|];
      exact (generate_qconfig_map_entries ReFragment.re_match example_type_of ∅
               example_modules example_graph example_qconfig_dict example_scope
               qconfig_map attrs' Hgen)
  end.
Defined.

Lemma generate_qconfig_map_module_attributes_witness :
  ∃ qconfig_map attrs',
    generate_qconfig_map ReFragment.re_match example_type_of ∅ example_modules
      example_graph example_qconfig_dict example_scope
    = Some (Ok (qconfig_map, attrs'))
    ∧ (∀ m, (∀ n, n ∈ example_graph → module_set_by example_modules n ≠ Some m) →
            attrs' !! m = (∅ : gmap nat QConfigAny) !! m)
    ∧ (∀ pre n post m,
         example_graph = pre ++ n :: post →
         module_set_by example_modules n = Some m →
         (∀ n', n' ∈ post → module_set_by example_modules n' ≠ Some m) →
         (∃ g q attrs0,
            global_qconfig_of example_qconfig_dict = Some g
            ∧ node_step ReFragment.re_match example_type_of example_modules
                example_qconfig_dict example_scope g ∅ n = Ok (q, attrs0)
            ∧ attrs' !! m = Some q)
         ∧ (node_name n ∉ node_name <$> post →
            attrs' !! m = qconfig_map !! node_name n)).
Proof.
  let r := eval vm_compute in
    (generate_qconfig_map ReFragment.re_match example_type_of ∅ example_modules
       example_graph example_qconfig_dict example_scope) in
  lazymatch r with
  | Some (Ok (?qconfig_map, ?attrs')) =>
      assert (generate_qconfig_map ReFragment.re_match example_type_of ∅
                example_modules example_graph example_qconfig_dict example_scope
              = Some (Ok (qconfig_map, attrs'))) as Hgen
        by (vm_compute; reflexivity);
      exists qconfig_map, attrs'; split; [exact Hgen|];
      exact (generate_qconfig_map_module_attributes ReFragment.re_match example_type_of ∅
               example_modules example_graph example_qconfig_dict example_scope
               qconfig_map attrs' Hgen)
  end.
Defined.

Lemma call_function_precedence_witness :
  node_step ReFragment.re_match example_type_of example_modules example_qconfig_dict
    example_scope (Some (QConfigObj 0)) ∅ (mk_node "call_function" "add" (KStr "relu"))
  = Ok (match first_entry example_module_name (scopes "classifier") with
        | Some q => q
        | None =>
            match first_regex_match ReFragment.re_match
                    (od_items example_module_name_regex) "classifier" with
            | Some q => q
            | None =>
                match od_get (KObj 7) example_object_type with
                | Some q => q
                | None =>
                    match od_get (KStr "relu") example_object_type with
                    | Some q => q
                    | None => Some (QConfigObj 0)
                    end
                end
            end
        end, ∅).
Proof.
  apply (call_function_precedence ReFragment.re_match example_type_of example_modules
           example_qconfig_dict example_scope (Some (QConfigObj 0)) ∅
           (mk_node "call_function" "add" (KStr "relu"))
           example_object_type example_module_name_regex example_module_name
           "classifier" (KObj 7));
    [reflexivity..|apply example_patterns_compile|reflexivity|reflexivity].
Defined.

(** The function "relu" has an 'object_type' entry of its own, and in the
    scope of a module whose type has one it gets the entry of the type. *)
Example call_function_gets_the_module_type_entry :
  od_get (KStr "relu") example_object_type = Some (Some (QConfigObj 4))
  ∧ od_get (KObj 7) example_object_type = Some (Some (QConfigObj 3))
  ∧ node_step ReFragment.re_match example_type_of example_modules example_qconfig_dict
      example_scope (Some (QConfigObj 0)) ∅ (mk_node "call_function" "add" (KStr "relu"))
    = Ok (Some (QConfigObj 3), ∅)
  ∧ node_step ReFragment.re_match example_type_of example_modules example_qconfig_dict
      (od_of_list [("add", ("classifier", KObj 9))]) (Some (QConfigObj 0)) ∅
      (mk_node "call_function" "add" (KStr "relu"))
    = Ok (Some (QConfigObj 4), ∅).
Proof. split_and!; by vm_compute. Qed.

Lemma generate_qconfig_map_unknown_reference_witness :
  generate_qconfig_map ReFragment.re_match example_type_of ∅ example_modules
    ([mk_node "placeholder" "x" (KStr "x")]
     ++ mk_node "call_module" "pool" (KStr "features.1.pool")
     :: [mk_node "output" "output" (KStr "output")])
    example_qconfig_dict example_scope
  = Some (Raise KeyError).
Proof.
  apply (generate_qconfig_map_unknown_reference ReFragment.re_match example_type_of ∅
           example_modules example_qconfig_dict example_scope (Some (QConfigObj 0))).
  - reflexivity.
  - intros n' ->%list_elem_of_singleton. by eexists _, _.
  - left. split; [reflexivity|]. by intros t [= <-].
Defined.

(** ** The keys of the metrics and the training loop *)

Section keys.
Import DdpTrainer DdpTrainerRun.

Lemma has_char_comma_uint (d : Decimal.uint) :
  has_char "," (NilEmpty.string_of_uint d) = false.
Proof. induction d; cbn [NilEmpty.string_of_uint has_char]; by rewrite ?IHd. Qed.

Lemma has_char_comma_str_int (n : Z) : has_char "," (str_int n) = false.
Proof.
  unfold str_int, NilZero.string_of_int, NilZero.string_of_uint.
  destruct (Z.to_int n) as [d|d]; destruct d; try done;
    cbn [has_char]; by rewrite ?(has_char_comma_uint _).
Qed.

Lemma to_int_proper (n : Z) : Z.to_int n ≠ Decimal.Pos Decimal.Nil
                            ∧ Z.to_int n ≠ Decimal.Neg Decimal.Nil.
Proof.
  destruct n as [|p|p]; cbn; split; try done; intros [= Hp];
    by apply DecimalPos.Unsigned.to_uint_nonnil in Hp.
Qed.

(** The decimal text determines the number. *)
Lemma str_int_inj (a b : Z) : str_int a = str_int b → a = b.
Proof.
  unfold str_int. intros Heq. apply DecimalZ.to_int_inj.
  destruct (to_int_proper a) as [Ha1 Ha2], (to_int_proper b) as [Hb1 Hb2].
  pose proof (NilZero.isi _ Ha1 Ha2) as Ha. pose proof (NilZero.isi _ Hb1 Hb2) as Hb.
  rewrite Heq in Ha. congruence.
Qed.

Lemma comma_split (s1 t1 s2 t2 : string) :
  has_char "," s1 = false → has_char "," t1 = false →
  s1 +:+ "," +:+ s2 = t1 +:+ "," +:+ t2 → s1 = t1 ∧ s2 = t2.
Proof.
  revert t1. induction s1 as [|c s1 IH]; intros [|c' t1] Hs Ht Heq.
  - change (String "," s2 = String "," t2) in Heq. by injection Heq as ->.
  - change (String "," s2 = String c' (t1 +:+ "," +:+ t2)) in Heq.
    injection Heq as <- _. cbn in Ht. by rewrite bool_decide_true in Ht.
  - change (String c (s1 +:+ "," +:+ s2) = String "," t2) in Heq.
    injection Heq as -> _. cbn in Hs. by rewrite bool_decide_true in Hs.
  - change (String c (s1 +:+ "," +:+ s2) = String c' (t1 +:+ "," +:+ t2)) in Heq.
    cbn in Hs, Ht. apply orb_false_elim in Hs as [_ Hs], Ht as [_ Ht].
    injection Heq as -> Heq. by destruct (IH t1 Hs Ht Heq) as [-> ->].
Qed.

Lemma epoch_key_inj (epoch index epoch' index' : Z) :
  epoch_key epoch index = epoch_key epoch' index' → epoch = epoch' ∧ index = index'.
Proof.
  unfold epoch_key.
  intros [He Hi]%comma_split; [|apply has_char_comma_str_int..].
  split; by apply str_int_inj.
Qed.

(** X14.  The keys are faithful: two calls of [epoch_key] give the same key
    only for the same epoch and the same index, and two calls of [get_key]
    only for the same batch number and the same bucket index.  So no two
    batches, and no two buckets of one batch, share a key. *)
Theorem keys_determine_their_numbers {Cref ProcessGroup : Type}
    (epoch index epoch' index' : Z)
    (state state' : HookState Cref ProcessGroup) (bucket_index bucket_index' : Z) :
  (epoch_key epoch index = epoch_key epoch' index' ↔
     epoch = epoch' ∧ index = index')
  ∧ (get_key state bucket_index = get_key state' bucket_index' ↔
       batch_number state = batch_number state' ∧ bucket_index = bucket_index').
Proof.
  split; (split; [|by intros [-> ->] || (intros [Hb ->]; unfold get_key; by rewrite Hb)]).
  - apply epoch_key_inj.
  - apply (epoch_key_inj (batch_number state) bucket_index
             (batch_number state') bucket_index').
Qed.
End keys.

Section training_loop.
Import DdpTrainer DdpTrainerRun.
Context {Cref ProcessGroup Tensor : Type}.
Implicit Types (hook_state : HookState Cref ProcessGroup).
Implicit Types (data : list (Tensor * Tensor)) (epoch index : Z).

Lemma iteration_step_calls hook_state epoch index (batch : Tensor * Tensor) :
  batch_number (iteration_step hook_state epoch index batch).1
    = (batch_number hook_state + 1)%Z
  ∧ cref (iteration_step hook_state epoch index batch).1 = cref hook_state
  ∧ backward_batch_numbers (iteration_step hook_state epoch index batch).2
    = [(batch_number hook_state + 1)%Z]
  ∧ batch_start_keys (iteration_step hook_state epoch index batch).2
    = [epoch_key epoch index].
Proof. by destruct batch. Qed.

Lemma batches_loop_calls hook_state epoch index data :
  batch_number (batches_loop hook_state epoch index data).1
    = (batch_number hook_state + Z.of_nat (length data))%Z
  ∧ cref (batches_loop hook_state epoch index data).1 = cref hook_state
  ∧ backward_batch_numbers (batches_loop hook_state epoch index data).2
    = seqZ (batch_number hook_state + 1) (Z.of_nat (length data))
  ∧ batch_start_keys (batches_loop hook_state epoch index data).2
    = epoch_key epoch <$> seqZ index (Z.of_nat (length data)).
Proof.
  revert hook_state index.
  induction data as [|batch data IH]; intros hook_state index.
  - cbn. split; [lia|done].
  - cbn [batches_loop length].
    destruct (iteration_step_calls hook_state epoch index batch)
      as (Hn1 & Hc1 & Hb1 & Hk1).
    destruct (iteration_step hook_state epoch index batch) as [hook_state1 calls1].
    destruct (IH hook_state1 (index + 1)%Z) as (Hn2 & Hc2 & Hb2 & Hk2).
    destruct (batches_loop hook_state1 epoch (index + 1) data) as [hook_state2 calls2].
    cbn [fst snd] in *. unfold backward_batch_numbers, batch_start_keys in *.
    rewrite !omap_app, Hb1, Hb2, Hk1, Hk2, Hn2, Hn1, Hc2, Hc1.
    rewrite !(seqZ_cons _ (Z.of_nat (S (length data)))) by lia.
    replace (Z.pred (Z.of_nat (S (length data)))) with (Z.of_nat (length data)) by lia.
    replace (Z.succ index) with (index + 1)%Z by lia.
    replace (Z.succ (batch_number hook_state + 1))
      with (batch_number hook_state + 1 + 1)%Z by lia.
    split; [lia|done].
Qed.

Lemma epochs_loop_calls hook_state epoch (count : nat) data :
  batch_number (epochs_loop hook_state epoch count data).1
    = (batch_number hook_state + Z.of_nat (count * length data))%Z
  ∧ cref (epochs_loop hook_state epoch count data).1 = cref hook_state
  ∧ backward_batch_numbers (epochs_loop hook_state epoch count data).2
    = seqZ (batch_number hook_state + 1) (Z.of_nat (count * length data))
  ∧ batch_start_keys (epochs_loop hook_state epoch count data).2
    = seqZ epoch (Z.of_nat count)
        ≫= λ e, epoch_key e <$> seqZ 0 (Z.of_nat (length data)).
Proof.
  revert hook_state epoch.
  induction count as [|count IH]; intros hook_state epoch.
  - cbn. split; [lia|done].
  - cbn [epochs_loop].
    destruct (batches_loop_calls hook_state epoch 0 data) as (Hn1 & Hc1 & Hb1 & Hk1).
    destruct (batches_loop hook_state epoch 0 data) as [hook_state1 calls1].
    destruct (IH hook_state1 (epoch + 1)%Z) as (Hn2 & Hc2 & Hb2 & Hk2).
    destruct (epochs_loop hook_state1 (epoch + 1) count data) as [hook_state2 calls2].
    cbn [fst snd] in *. unfold backward_batch_numbers, batch_start_keys in *.
    rewrite !omap_app, Hb1, Hb2, Hk1, Hk2, Hn2, Hn1, Hc2, Hc1.
    split_and!.
    + lia.
    + done.
    + replace (Z.of_nat (S count * length data))
        with (Z.of_nat (length data) + Z.of_nat (count * length data))%Z by lia.
      rewrite seqZ_app by lia. do 2 f_equal. lia.
    + rewrite (seqZ_cons epoch) by lia. rewrite bind_cons.
      replace (Z.pred (Z.of_nat (S count))) with (Z.of_nat count) by lia.
      by replace (Z.succ epoch) with (epoch + 1)%Z by lia.
Qed.

Lemma preprocess_data_length (cuda : Tensor → Tensor) data :
  length (preprocess_data cuda data) = length data.
Proof. apply length_fmap. Qed.

Lemma train_loop_lists (self : Cref) (process_group : ProcessGroup)
    (epochs : Z) (cuda : Tensor → Tensor) data :
  backward_batch_numbers (train self process_group epochs cuda data).2
    = seqZ 0 (Z.of_nat (Z.to_nat epochs * length data))
  ∧ batch_start_keys (train self process_group epochs cuda data).2
    = seqZ 0 epochs ≫= λ e, epoch_key e <$> seqZ 0 (Z.of_nat (length data)).
Proof.
  unfold train.
  destruct (epochs_loop_calls (init self process_group) 0 (Z.to_nat epochs)
              (preprocess_data cuda data)) as (_ & _ & Hb & Hk).
  rewrite preprocess_data_length in *. split.
  - by rewrite Hb.
  - rewrite Hk. destruct (decide (0 ≤ epochs)%Z).
    + by rewrite Z2Nat.id.
    + rewrite Z2Nat.nonpos by lia.
      by rewrite (seqZ_nil 0 (Z.of_nat 0)), (seqZ_nil 0 epochs) by lia.
Qed.

(** X15.  [train] runs [iteration_step] once for every epoch below
    [epochs] and every batch of the data, epoch by epoch, and every
    iteration moves the hook state to the next batch before anything else.
    So the start of the batches is recorded under the keys of (epoch, index)
    in this order; the backward passes see the batch numbers 0, 1, 2, ...
    one after the other; and in the end the batch number is the number of
    iterations less one (it is still -1 when there was none). *)
Theorem train_counts_batches (self : Cref) (process_group : ProcessGroup)
    (epochs : Z) (cuda : Tensor → Tensor) data :
  let iterations := (Z.to_nat epochs * length data)%nat in
  batch_number (train self process_group epochs cuda data).1
    = (Z.of_nat iterations - 1)%Z
  ∧ cref (train self process_group epochs cuda data).1 = self
  ∧ backward_batch_numbers (train self process_group epochs cuda data).2
    = seqZ 0 (Z.of_nat iterations)
  ∧ batch_start_keys (train self process_group epochs cuda data).2
    = seqZ 0 epochs ≫= λ e, epoch_key e <$> seqZ 0 (Z.of_nat (length data)).
Proof.
  intros iterations. unfold iterations.
  destruct (train_loop_lists self process_group epochs cuda data) as (Hb & Hk).
  split_and!; [..|done|done]; unfold train;
    destruct (epochs_loop_calls (init self process_group) 0 (Z.to_nat epochs)
                (preprocess_data cuda data)) as (Hn & Hc & _ & _);
    rewrite preprocess_data_length in *.
  - rewrite Hn. cbn [init batch_number]. lia.
  - by rewrite Hc.
Qed.

Lemma epoch_keys_NoDup (epochs n : Z) :
  NoDup (seqZ 0 epochs ≫= λ e, epoch_key e <$> seqZ 0 n).
Proof.
  apply NoDup_bind; [| |apply NoDup_seqZ].
  - intros e1 e2 key _ _ (i1 & -> & _)%list_elem_of_fmap (i2 & Heq & _)%list_elem_of_fmap.
    by apply epoch_key_inj in Heq as [-> _].
  - intros e _. apply NoDup_fmap_2_strong; [|apply NoDup_seqZ].
    intros i1 i2 _ _ Heq. by apply epoch_key_inj in Heq as [_ ->].
Qed.

(** X16.  Over a whole run of [train] no key is used twice: the keys under
    which the start of a batch is recorded are pairwise distinct, and two
    different backward passes see different batch numbers, so that the keys
    the communication hook makes in one pass differ from those it makes in
    another, whatever the buckets. *)
Theorem train_keys_are_fresh (self : Cref) (process_group : ProcessGroup)
    (epochs : Z) (cuda : Tensor → Tensor) data :
  NoDup (batch_start_keys (train self process_group epochs cuda data).2)
  ∧ NoDup (backward_batch_numbers (train self process_group epochs cuda data).2)
  ∧ (∀ (i j : nat) hook_state hook_state' (bucket_index bucket_index' : Z),
       backward_batch_numbers (train self process_group epochs cuda data).2 !! i
         = Some (batch_number hook_state) →
       backward_batch_numbers (train self process_group epochs cuda data).2 !! j
         = Some (batch_number hook_state') →
       i ≠ j →
       get_key hook_state bucket_index ≠ get_key hook_state' bucket_index').
Proof.
  destruct (train_loop_lists self process_group epochs cuda data) as (Hb & Hk).
  rewrite Hb, Hk. split_and!.
  - apply epoch_keys_NoDup.
  - apply NoDup_seqZ.
  - intros i j hs hs' b b' Hi Hj Hne Hkey. apply Hne.
    apply (epoch_key_inj (batch_number hs) b (batch_number hs') b') in Hkey as [Hbn _].
    rewrite <-Hbn in Hj. by eapply NoDup_lookup; [apply NoDup_seqZ|..].
Qed.
End training_loop.

Section node_order.
Variable re_match : string → string → result bool.
Variable type_of : nat → nat.
Variable modules : odict string nat.
Variable qconfig_dict : pydict.
Variable node_name_to_scope : odict string (string * pykey).
Implicit Types (n : node) (nodes graph : list node) (attrs : gmap nat QConfigAny).
Implicit Types (qconfig_map : gmap string QConfigAny) (g q : QConfigAny).

Lemma loop_returns_iff g nodes attrs qconfig_map :
  (∃ r, qconfig_map_loop re_match type_of modules qconfig_dict node_name_to_scope g
          nodes attrs qconfig_map = Ok r)
  ↔ ∀ n, n ∈ nodes →
         ∃ q attrs0, node_step re_match type_of modules qconfig_dict node_name_to_scope
                       g ∅ n = Ok (q, attrs0).
Proof.
  revert attrs qconfig_map.
  induction nodes as [|n nodes IH]; intros attrs qconfig_map; cbn [qconfig_map_loop].
  - split; [by intros _ n ?%elem_of_nil|]. intros _. by eexists.
  - rewrite node_step_attrs.
    destruct (node_step _ _ _ _ _ _ ∅ n) as [[q attrs0]|e] eqn:Hstep;
      cbn [mbind result_bind].
    + rewrite IH. split.
      * intros Hall n' [->|Hin]%elem_of_cons; [by exists q, attrs0|by apply Hall].
      * intros Hall n' Hin. apply Hall. by right.
    + split; [by intros [r ?]|]. intros Hall.
      destruct (Hall n) as (q & attrs0 & Hn); [left|]. congruence.
Qed.

Lemma loop_entry g nodes attrs qconfig_map' attrs' n :
  qconfig_map_loop re_match type_of modules qconfig_dict node_name_to_scope g
    nodes attrs ∅ = Ok (qconfig_map', attrs') →
  NoDup (node_name <$> nodes) → n ∈ nodes →
  ∃ q attrs0,
    node_step re_match type_of modules qconfig_dict node_name_to_scope g ∅ n
      = Ok (q, attrs0)
    ∧ qconfig_map' !! node_name n = Some q.
Proof.
  intros Hloop Hnd (pre & post & ->)%list_elem_of_split.
  eapply loop_last; [done|].
  rewrite fmap_app, fmap_cons in Hnd.
  apply NoDup_app in Hnd as (_ & _ & Hnd). by apply NoDup_cons in Hnd as [? _].
Qed.

(** X17.  With pairwise distinct node names, the map does not depend on
    the order of the nodes: when [generate_qconfig_map] returns a map for a
    graph, it returns the same map for the same nodes in any other
    order. *)
Theorem generate_qconfig_map_node_order attrs graph graph' qconfig_map attrs' :
  generate_qconfig_map re_match type_of attrs modules graph qconfig_dict
    node_name_to_scope = Some (Ok (qconfig_map, attrs')) →
  NoDup (node_name <$> graph) →
  graph' ≡ₚ graph →
  ∃ attrs'',
    generate_qconfig_map re_match type_of attrs modules graph' qconfig_dict
      node_name_to_scope = Some (Ok (qconfig_map, attrs'')).
Proof.
  unfold generate_qconfig_map.
  destruct (global_qconfig_of qconfig_dict) as [g|]; [|done]. cbn.
  intros [= Hloop] Hnd Hperm.
  destruct (proj2 (loop_returns_iff g graph' attrs ∅)) as [[qconfig_map2 attrs2] Hloop2].
  { intros n Hn. rewrite Hperm in Hn.
    by apply (proj1 (loop_returns_iff g graph attrs ∅) (ex_intro _ _ Hloop)). }
  exists attrs2. rewrite Hloop2. do 3 f_equal.
  assert (NoDup (node_name <$> graph')) as Hnd2 by by rewrite Hperm.
  apply map_eq. intros name.
  destruct (decide (name ∈ node_name <$> graph)) as [Hin|Hnot].
  - apply list_elem_of_fmap in Hin as (n & -> & Hin).
    destruct (loop_entry _ _ _ _ _ n Hloop Hnd Hin) as (q & a & Hq & ->).
    destruct (loop_entry _ _ _ _ _ n Hloop2 Hnd2) as (q2 & a2 & Hq2 & ->);
      [by rewrite Hperm|].
    congruence.
  - rewrite (loop_lookup_other _ _ _ _ _ _ _ _ _ _ _ _ Hloop Hnot).
    rewrite (loop_lookup_other _ _ _ _ _ _ _ _ _ _ _ _ Hloop2); [done|].
    by rewrite Hperm.
Qed.
End node_order.

Lemma generate_qconfig_map_node_order_witness :
  ∃ qconfig_map attrs' attrs'',
    generate_qconfig_map ReFragment.re_match example_type_of ∅ example_modules
      example_graph example_qconfig_dict example_scope
    = Some (Ok (qconfig_map, attrs'))
    ∧ generate_qconfig_map ReFragment.re_match example_type_of ∅ example_modules
        (reverse example_graph) example_qconfig_dict example_scope
      = Some (Ok (qconfig_map, attrs'')).
Proof.
  let r := eval vm_compute in
    (generate_qconfig_map ReFragment.re_match example_type_of ∅ example_modules
       example_graph example_qconfig_dict example_scope) in
  lazymatch r with
  | Some (Ok (?qconfig_map, ?attrs')) =>
      assert (generate_qconfig_map ReFragment.re_match example_type_of ∅
                example_modules example_graph example_qconfig_dict example_scope
              = Some (Ok (qconfig_map, attrs'))) as Hgen
        by (vm_compute; reflexivity);
      destruct (generate_qconfig_map_node_order ReFragment.re_match example_type_of
                  example_modules example_qconfig_dict example_scope ∅
                  example_graph (reverse example_graph) qconfig_map attrs' Hgen)
        as [attrs'' Hrev];
      [apply (bool_decide_unpack _); vm_compute; reflexivity
      |apply reverse_Permutation
      |exists qconfig_map, attrs', attrs''; split; [exact Hgen|exact Hrev]]
  end.
Defined.

(** *** The training loop on an example *)

Example train_on_example :
  let run := DdpTrainerRun.train (Tensor:=nat) 0 0 2 S [(10, 11); (20, 21); (30, 31)] in
  DdpTrainerRun.batch_start_keys run.2 = ["0,0"; "0,1"; "0,2"; "1,0"; "1,1"; "1,2"]
  ∧ DdpTrainerRun.backward_batch_numbers run.2 = [0; 1; 2; 3; 4; 5]%Z
  ∧ DdpTrainer.batch_number run.1 = 5%Z
  ∧ DdpTrainer.get_key run.1 7 = "5,7"
  ∧ DdpTrainer.batch_number
      (DdpTrainerRun.train (Tensor:=nat) 0 0 (-1) S [(10, 11)]).1 = (-1)%Z
  ∧ (DdpTrainerRun.train (Tensor:=nat) 0 0 3 S []).2 = []
  ∧ DdpTrainerRun.epoch_key (-3) 12 = "-3,12".
Proof. by vm_compute. Qed.
